(** * Message admission in the decentralized web node

    A shallow embedding of the parts of the node that decide whether a
    message is accepted: the [RecordsDelete] handler and its index
    projection, the pre-flight checks of [Dwn], the normalisation of a
    protocol definition and the derivation of hierarchical keys.

    JavaScript objects used as maps are [gmap string _], and an object
    that a [for ... in] loop runs over is the list of its properties in
    the order of the loop; objects that are shared and written to live in
    a heap of references; asynchronous code
    that calls the storage collaborators is written in a small monad that
    threads the backend state, records every collaborator call and
    propagates exceptions. *)

From Stdlib Require Import String Ascii NArith List Bool.
From stdpp Require Import base option list gmap strings.
Import ListNotations.
Local Open Scope string_scope.

(** ** core/message, core/message-reply, core/types *)

Module Core.

(** Modelled from the spec: the enums [DwnInterfaceName] and
    [DwnMethodName] of core/message are not among the sources; only the
    members the sources mention are listed, and each member's value is
    the string of its own name, as on the wire. *)
Inductive DwnInterfaceName := Events | Messages | Protocols | Records.
Inductive DwnMethodName := Configure | Get | Query | Read | Write | Delete.

Definition interfaceName (i : DwnInterfaceName) : string :=
  match i with
  | Events => "Events" | Messages => "Messages"
  | Protocols => "Protocols" | Records => "Records"
  end.

Definition methodName (m : DwnMethodName) : string :=
  match m with
  | Configure => "Configure" | Get => "Get" | Query => "Query"
  | Read => "Read" | Write => "Write" | Delete => "Delete"
  end.

(** A descriptor is a plain object: [properties] holds its own
    enumerable properties, whichever they are, with string values as in
    the index row they end up in. *)
Record Descriptor := mkDescriptor {
  properties : gmap string string
}.

(** [descriptor.interface], [descriptor.method] and
    [descriptor.recordId]; a property that is absent reads [undefined]
    ([None]). *)
Definition interface (d : Descriptor) : option string :=
  properties d !! "interface".
Definition method (d : Descriptor) : option string :=
  properties d !! "method".
Definition recordId (d : Descriptor) : option string :=
  properties d !! "recordId".

(** Modelled from the spec: the timestamp that the ordering of messages
    compares is read by code that is not among the sources; the spec
    calls it [dateCreated]. A descriptor without it counts as carrying
    the empty timestamp. *)
Definition dateCreated (d : Descriptor) : string :=
  default "" (properties d !! "dateCreated").

(** [authorization] stands for the detached signature; it covers the
    descriptor, so two messages that differ anywhere differ here. *)
Record Message := mkMessage {
  descriptor : Descriptor;
  authorization : string
}.

#[global] Instance Descriptor_eq_dec : EqDecision Descriptor.
Proof. solve_decision. Defined.
#[global] Instance Message_eq_dec : EqDecision Message.
Proof. solve_decision. Defined.

(** A thrown JavaScript error, identified by its message. *)
Definition Error := string.

Record MessageReply := mkReply { code : nat; detail : string }.

(** [MessageReply.fromError(e, code)] *)
Definition fromError (e : Error) (c : nat) : MessageReply :=
  {| code := c; detail := e |}.

(** [Message.getCid]: the content identifier, computed by hashing. *)
Class ContentId := { getCid : Message -> string }.

End Core.
Export Core.

(** ** The monad of asynchronous handler code *)

Module Async.

(** How a promise settles. *)
Inductive Completion (A : Type) :=
| Fulfilled (a : A)
| Thrown (e : Error).
Arguments Fulfilled {A} a.
Arguments Thrown {A} e.

Section Monad.
Context {W C : Type}.

(** A computation reads and updates the backend state [W] and logs the
    collaborator calls [C] it makes, in order. *)
Definition M (A : Type) : Type := W -> Completion A * W * list C.

Definition ret {A} (a : A) : M A := fun w => (Fulfilled a, w, []).

Definition throw {A} (e : Error) : M A := fun w => (Thrown e, w, []).

Definition bind {A B} (m : M A) (k : A -> M B) : M B :=
  fun w =>
    match m w with
    | (Fulfilled a, w1, t1) =>
        let '(r, w2, t2) := k a w1 in (r, w2, (t1 ++ t2)%list)
    | (Thrown e, w1, t1) => (Thrown e, w1, t1)
    end.

(** [try { m } catch (e) { ... }]: the exception becomes a value. *)
Definition attempt {A} (m : M A) : M (Error + A) :=
  fun w =>
    match m w with
    | (Fulfilled a, w1, t1) => (Fulfilled (inr a), w1, t1)
    | (Thrown e, w1, t1) => (Fulfilled (inl e), w1, t1)
    end.

(** A call that does not touch the backend state. *)
Definition call {A} (c : C) (r : Completion A) : M A :=
  fun w => (r, w, [c]).

(** A call that reads the backend state. *)
Definition reading {A} (c : C) (f : W -> Completion A) : M A :=
  fun w => (f w, w, [c]).

(** A call that may update the backend state. *)
Definition updating {A} (c : C) (f : W -> Completion A * W) : M A :=
  fun w => let '(r, w1) := f w in (r, w1, [c]).

End Monad.
Arguments M : clear implicits.

Definition outcome {A W C} (r : Completion A * W * list C) : Completion A :=
  fst (fst r).
Definition finalState {A W C} (r : Completion A * W * list C) : W :=
  snd (fst r).
Definition calls {A W C} (r : Completion A * W * list C) : list C := snd r.

End Async.
Export Async.

#[global] Instance Completion_ret : MRet Completion := @Fulfilled.
#[global] Instance Completion_bind : MBind Completion :=
  fun A B k m => match m with Fulfilled a => k a | Thrown e => Thrown e end.
#[global] Instance M_ret {W C} : MRet (M W C) := @ret W C.
#[global] Instance M_bind {W C} : MBind (M W C) :=
  fun A B k m => bind m k.

(** ** interfaces/records/messages/records-write: message ordering *)

Module RecordsWrite.
Section Ordering.
Context `{ContentId}.

(** Modelled from the spec: [RecordsWrite.compareModifiedTime],
    [isNewer] and [getNewestMessage] are not among the sources.  The
    spec orders messages by the pair (dateCreated, ContentId),
    lexicographically: the timestamp, compared as a string, is the
    primary key and the content identifier breaks exact ties. *)
Definition compareModifiedTime (a b : Message) : comparison :=
  match String.compare (dateCreated (descriptor a))
                       (dateCreated (descriptor b)) with
  | Eq => String.compare (getCid a) (getCid b)
  | c => c
  end.

(** Modelled from the spec: [a] strictly outranks [b]. *)
Definition isNewer (a b : Message) : bool :=
  match compareModifiedTime a b with Gt => true | _ => false end.

(** Modelled from the spec: the element with the greatest pair, found by
    one pass that keeps the current newest; [None] is [undefined]. *)
Definition getNewestMessage (messages : list Message) : option Message :=
  fold_left
    (fun currentNewestMessage message =>
       match currentNewestMessage with
       | None => Some message
       | Some n => if isNewer message n then Some message else Some n
       end)
    messages None.

(** The ordering in the spec's words: a later timestamp wins, and at
    exactly equal timestamps the greater content identifier wins. *)
Definition outranks (a b : Message) : Prop :=
  String.compare (dateCreated (descriptor b))
                 (dateCreated (descriptor a)) = Lt
  ∨ (dateCreated (descriptor a) = dateCreated (descriptor b)
     ∧ String.compare (getCid b) (getCid a) = Lt).

(** The pair that the ordering compares. *)
Definition rank (a : Message) : string * string :=
  (dateCreated (descriptor a), getCid a).

End Ordering.
End RecordsWrite.

(** ** interfaces/records/handlers/records-delete *)

Module RecordsDeleteHandler.
Import RecordsWrite.

(** A parsed delete ([RecordsDelete]): the message and the author
    resolved from its signature. *)
Record RecordsDelete := mkRecordsDelete {
  message : Message;
  author : string
}.

(** The filter handed to [messageStore.query]. *)
Record Filter := mkFilter {
  filterInterface : string;
  filterRecordId : option string
}.

(** The calls the handler makes on its collaborators. *)
Inductive Call :=
| Parse (m : Message)
| Authenticate (authorization : string)
| Authorize (r : RecordsDelete) (tenant : string)
| StoreQuery (tenant : string) (query : Filter)
| StorePut (tenant : string) (m : Message) (indexes : gmap string string)
| LogAppend (tenant : string) (messageCid : string)
| Prune (tenant : string) (existingMessages : list Message)
        (newestMessage : Message).

(** The calls that change the message store or the event log. *)
Definition mutates (c : Call) : bool :=
  match c with
  | StorePut _ _ _ | LogAppend _ _ | Prune _ _ _ => true
  | _ => false
  end.

(** The position of a call in the admission pipeline. *)
Definition stage (c : Call) : nat :=
  match c with
  | Parse _ => 0
  | Authenticate _ => 1
  | Authorize _ _ => 2
  | StoreQuery _ _ => 3
  | StorePut _ _ _ => 4
  | LogAppend _ _ => 5
  | Prune _ _ _ => 6
  end.

(** Parsing and the authorization gate: signature checks and identity
    resolution are outside the handler and may throw. *)
Class Gate := {
  parse : Message -> Completion RecordsDelete;
  authenticate : string -> Completion unit;
  authorize : RecordsDelete -> string -> Completion unit
}.

(** The storage interfaces the handler is constructed with, over the
    joint state [W] of message store, data store and event log;
    [deleteAllOlderMessagesButKeepInitialWrite] of records-interface works
    on the same three. A query only reads. *)
Class Backend (W : Type) := {
  messageStore_query : string -> Filter -> W -> Completion (list Message);
  messageStore_put :
    string -> Message -> gmap string string -> W -> Completion unit * W;
  eventLog_append : string -> string -> W -> Completion unit * W;
  deleteAllOlderMessagesButKeepInitialWrite :
    string -> list Message -> Message -> W -> Completion unit * W
}.

(** [{ author: recordsDelete.author, ...descriptor }], where
    [descriptor] is a copy of the own properties of the message's
    descriptor: the properties of the spread come after [author] in the
    literal and overwrite it when they have its name, which is what the
    left-biased union does. The literal names no [isLatestBaseState]. *)
Definition constructIndexes (tenant : string) (recordsDelete : RecordsDelete)
  : gmap string string :=
  let message := message recordsDelete in
  let descriptor := properties (descriptor message) in
  descriptor ∪ {[ "author" := author recordsDelete ]}.

Section Handle.
Context `{ContentId} `{Gate} {W : Type} `{Backend W}.

(** The branch that decides [incomingMessageIsNewest] and
    [newestMessage]. *)
Definition resolveNewest (message : Message)
    (newestExistingMessage : option Message) : bool * Message :=
  match newestExistingMessage with
  | None => (true, message)
  | Some existing =>
      if isNewer message existing then (true, message)
      else (false, existing)
  end.

(** [newestExistingMessage === undefined ||
    newestExistingMessage.descriptor.method === DwnMethodName.Delete] *)
Definition missingOrDeleted (newestExistingMessage : option Message) : bool :=
  match newestExistingMessage with
  | None => true
  | Some existing =>
      bool_decide (method (descriptor existing) = Some (methodName Delete))
  end.

(** The query for the existing records matching the [recordId]. *)
Definition recordsQuery (message : Message) : Filter :=
  {| filterInterface := interfaceName Records;
     filterRecordId := recordId (descriptor message) |}.

(** The calls of a run that gets as far as the query, and those of a
    run that gets to the end. *)
Definition readCalls (tenant : string) (message : Message)
    (recordsDelete : RecordsDelete) : list Call :=
  [ Parse message; Authenticate (authorization message);
    Authorize recordsDelete tenant;
    StoreQuery tenant (recordsQuery message) ].

Definition admissionCalls (tenant : string) (message : Message)
    (recordsDelete : RecordsDelete) (existingMessages : list Message)
  : list Call :=
  (readCalls tenant message recordsDelete
   ++ [ StorePut tenant message (constructIndexes tenant recordsDelete);
        LogAppend tenant (getCid message);
        Prune tenant existingMessages message ])%list.

Definition handle (tenant : string) (message : Message)
  : M W Call MessageReply :=
  parsed ← attempt (call (Parse message) (parse message));
  match parsed with
  | inl e => mret (fromError e 400)
  | inr recordsDelete =>
    authorized ← attempt (
      call (Authenticate (authorization message))
           (authenticate (authorization message));;
      call (Authorize recordsDelete tenant)
           (authorize recordsDelete tenant));
    match authorized with
    | inl e => mret (fromError e 401)
    | inr _ =>
      let query := recordsQuery message in
      existingMessages ←
        reading (StoreQuery tenant query) (messageStore_query tenant query);
      let newestExistingMessage := getNewestMessage existingMessages in
      let '(incomingMessageIsNewest, newestMessage) :=
        resolveNewest message newestExistingMessage in
      if negb incomingMessageIsNewest then
        mret {| code := 409; detail := "Conflict" |}
      else if missingOrDeleted newestExistingMessage then
        mret {| code := 404; detail := "Not Found" |}
      else
        let indexes := constructIndexes tenant recordsDelete in
        updating (StorePut tenant message indexes)
                 (messageStore_put tenant message indexes);;
        let messageCid := getCid message in
        updating (LogAppend tenant messageCid)
                 (eventLog_append tenant messageCid);;
        updating (Prune tenant existingMessages newestMessage)
                 (deleteAllOlderMessagesButKeepInitialWrite
                    tenant existingMessages newestMessage);;
        mret {| code := 202; detail := "Accepted" |}
    end
  end.

End Handle.
End RecordsDeleteHandler.

(** ** dwn: pre-flight checks and entry points *)

Module Dwn.

(** [rawMessage: any], as far as the checks look into it: the message,
    its descriptor and the two properties may each be [undefined]
    ([None]); a property that is present holds a string. [rawBody] stands
    for everything else in the message, which only the schema validation
    and the handlers read. *)
Record RawDescriptor := mkRawDescriptor {
  rawInterface : option string;
  rawMethod : option string
}.

Record RawMessage := mkRawMessage {
  rawDescriptor : option RawDescriptor;
  rawBody : string
}.

(** The handler classes instantiated by the constructor and the bound
    entry points. *)
Inductive MethodHandler :=
| EventsGetHandler | MessagesGetHandler
| ProtocolsConfigureHandler | ProtocolsQueryHandler
| RecordsDeleteHandler | RecordsQueryHandler
| RecordsReadHandler | RecordsWriteHandler.

(** What a handler is called with besides tenant and message. *)
Inductive HandlerInput :=
| NoInput
| DataStream (dataStream : option string)
| Options (skipDataStorage : bool).

Inductive Call :=
| IsTenant (tenant : string)
| ValidateJsonSchema (rawMessage : option RawMessage)
| Handle (handler : MethodHandler) (tenant : string)
         (message : option RawMessage) (input : HandlerInput).

Class TenantGate := { isTenant : string -> Completion bool }.

Class Collaborators (W : Type) := {
  validateJsonSchema : option RawMessage -> Completion unit;
  handlerHandle :
    MethodHandler -> string -> option RawMessage -> HandlerInput ->
    W -> Completion MessageReply * W
}.

(** [this.methodHandlers], keyed by interface name followed by method
    name. *)
Definition methodHandlers : gmap string MethodHandler :=
  list_to_map [
    (interfaceName Events ++ methodName Get, EventsGetHandler);
    (interfaceName Messages ++ methodName Get, MessagesGetHandler);
    (interfaceName Protocols ++ methodName Configure,
     ProtocolsConfigureHandler);
    (interfaceName Protocols ++ methodName Query, ProtocolsQueryHandler);
    (interfaceName Records ++ methodName Delete, RecordsDeleteHandler);
    (interfaceName Records ++ methodName Query, RecordsQueryHandler);
    (interfaceName Records ++ methodName Read, RecordsReadHandler);
    (interfaceName Records ++ methodName Write, RecordsWriteHandler) ].

(** How a template literal prints a possibly undefined string. *)
Definition show (v : option string) : string := default "undefined" v.

(** [rawMessage?.descriptor?.interface] and [...?.method] *)
Definition dwnInterfaceOf (rawMessage : option RawMessage) : option string :=
  (rawMessage ≫= rawDescriptor) ≫= rawInterface.
Definition dwnMethodOf (rawMessage : option RawMessage) : option string :=
  (rawMessage ≫= rawDescriptor) ≫= rawMethod.

(** [expected !== undefined && expected !== received] *)
Definition mismatch {A} (name : A -> string) (expected : option A)
    (received : string) : bool :=
  match expected with
  | Some e => negb (String.eqb (name e) received)
  | None => false
  end.

Section Checks.
Context `{TenantGate} {W : Type} `{Collaborators W}.

Definition preprocessingChecks (tenant : string)
    (rawMessage : option RawMessage)
    (expectedInterface : option DwnInterfaceName)
    (expectedMethod : option DwnMethodName)
  : M W Call (option MessageReply) :=
  isTenant ← call (IsTenant tenant) (isTenant tenant);
  if negb isTenant then
    mret (Some {| code := 401; detail := tenant ++ " is not a tenant" |})
  else
    let dwnInterface := dwnInterfaceOf rawMessage in
    let dwnMethod := dwnMethodOf rawMessage in
    match dwnInterface, dwnMethod with
    | Some receivedInterface, Some receivedMethod =>
      if mismatch interfaceName expectedInterface receivedInterface then
        mret (Some {| code := 400;
          detail := "Expected interface "
                    ++ show (interfaceName <$> expectedInterface)
                    ++ ", received " ++ show dwnInterface |})
      else if mismatch methodName expectedMethod receivedMethod then
        mret (Some {| code := 400;
          detail := "Expected method "
                    ++ show (interfaceName <$> expectedInterface)
                    ++ show (methodName <$> expectedMethod)
                    ++ ", received " ++ show dwnInterface
                    ++ show dwnMethod |})
      else
        validated ← attempt (call (ValidateJsonSchema rawMessage)
                                  (validateJsonSchema rawMessage));
        match validated with
        | inl error => mret (Some (fromError error 400))
        | inr _ => mret None
        end
    | _, _ =>
      mret (Some {| code := 400;
        detail := "Both interface and method must be present, interface: "
                  ++ show dwnInterface ++ ", method: "
                  ++ show dwnMethod |})
    end.

(** The call [handler.handle(...)] on one of the handler classes. *)
Definition dispatch (handler : MethodHandler) (tenant : string)
    (message : option RawMessage) (input : HandlerInput)
  : M W Call MessageReply :=
  updating (Handle handler tenant message input)
           (handlerHandle handler tenant message input).

Definition processMessage (tenant : string)
    (rawMessage : option RawMessage) (dataStream : option string)
  : M W Call MessageReply :=
  errorMessageReply ← preprocessingChecks tenant rawMessage None None;
  match errorMessageReply with
  | Some reply => mret reply
  | None =>
    match dwnInterfaceOf rawMessage, dwnMethodOf rawMessage with
    | Some dwnInterface, Some dwnMethod =>
      let handlerKey := dwnInterface ++ dwnMethod in
      match methodHandlers !! handlerKey with
      | Some handler =>
          dispatch handler tenant rawMessage (DataStream dataStream)
      | None => throw "TypeError: Cannot read properties of undefined"
      end
    | _, _ => throw "TypeError: Cannot read properties of undefined"
    end
  end.

Definition handleRecordsRead (tenant : string)
    (message : option RawMessage) : M W Call MessageReply :=
  errorMessageReply ←
    preprocessingChecks tenant message (Some Records) (Some Read);
  match errorMessageReply with
  | Some reply => mret reply
  | None => dispatch RecordsReadHandler tenant message NoInput
  end.

Definition handleMessagesGet (tenant : string)
    (message : option RawMessage) : M W Call MessageReply :=
  errorMessageReply ←
    preprocessingChecks tenant message (Some Messages) (Some Get);
  match errorMessageReply with
  | Some reply => mret reply
  | None => dispatch MessagesGetHandler tenant message NoInput
  end.

Definition synchronizePrunedInitialRecordsWrite (tenant : string)
    (message : option RawMessage) : M W Call MessageReply :=
  errorMessageReply ←
    preprocessingChecks tenant message (Some Records) (Some Write);
  match errorMessageReply with
  | Some reply => mret reply
  | None =>
    let options := Options true in
    dispatch RecordsWriteHandler tenant message options
  end.

(** The four public entry points, and the interface and method each
    binds its checks to. *)
Inductive EntryPoint :=
| ProcessMessage (dataStream : option string)
| HandleRecordsRead
| HandleMessagesGet
| SynchronizePrunedInitialRecordsWrite.

Definition enter (e : EntryPoint) (tenant : string)
    (rawMessage : option RawMessage) : M W Call MessageReply :=
  match e with
  | ProcessMessage dataStream => processMessage tenant rawMessage dataStream
  | HandleRecordsRead => handleRecordsRead tenant rawMessage
  | HandleMessagesGet => handleMessagesGet tenant rawMessage
  | SynchronizePrunedInitialRecordsWrite =>
      synchronizePrunedInitialRecordsWrite tenant rawMessage
  end.

Definition expectedInterface (e : EntryPoint) : option DwnInterfaceName :=
  match e with
  | ProcessMessage _ => None
  | HandleRecordsRead => Some Records
  | HandleMessagesGet => Some Messages
  | SynchronizePrunedInitialRecordsWrite => Some Records
  end.

Definition expectedMethod (e : EntryPoint) : option DwnMethodName :=
  match e with
  | ProcessMessage _ => None
  | HandleRecordsRead => Some Read
  | HandleMessagesGet => Some Get
  | SynchronizePrunedInitialRecordsWrite => Some Write
  end.

Definition isHandle (c : Call) : bool :=
  match c with Handle _ _ _ _ => true | _ => false end.

End Checks.
End Dwn.

(** ** interfaces/protocols/messages/protocols-configure *)

Module ProtocolsConfigure.

(** Modelled from the spec: the type [ProtocolDefinition] (protocols/types)
    is not among the sources. A definition has a protocol URL, a map
    from type names to type objects with an optional schema URL, and a
    rule structure that the normalisation passes through. *)
Record ProtocolType := mkProtocolType {
  schema : option string;
  dataFormats : option (list string)
}.

(** Objects are reached through references (indices into the heap), so
    that two owners of one reference see each other's writes. *)
Record ProtocolDefinition := mkProtocolDefinition {
  protocol : string;
  types : nat;
  structure : string
}.

(** A types map lists its own properties, type name and reference, in
    the order in which [for ... in] enumerates them; the spread
    [{ ...types }] keeps that order. *)
Inductive Object :=
| TypeObject (type : ProtocolType)
| TypesObject (entries : list (string * nat))
| DefinitionObject (definition : ProtocolDefinition).

Abbreviation Heap := (list Object).

(** utils/url: the two normalisers, which may throw. *)
Class Url := {
  normalizeProtocolUrl : string -> Completion string;
  normalizeSchemaUrl : string -> Completion string
}.

(** The heap is the only state; no collaborator call is logged. *)
Abbreviation Js := (M Heap Empty_set).

Definition lift {A} (r : Completion A) : Js A := fun heap => (r, heap, []).

(** An object literal allocates a fresh object. *)
Definition alloc (o : Object) : Js nat :=
  fun heap => (Fulfilled (length heap), (heap ++ [o])%list, []).

Definition readDefinition (ref : nat) : Js ProtocolDefinition :=
  fun heap =>
    match heap !! ref with
    | Some (DefinitionObject d) => (Fulfilled d, heap, [])
    | _ => (Thrown "TypeError", heap, [])
    end.

Definition readTypes (ref : nat) : Js (list (string * nat)) :=
  fun heap =>
    match heap !! ref with
    | Some (TypesObject entries) => (Fulfilled entries, heap, [])
    | _ => (Thrown "TypeError", heap, [])
    end.

Definition readType (ref : nat) : Js ProtocolType :=
  fun heap =>
    match heap !! ref with
    | Some (TypeObject t) => (Fulfilled t, heap, [])
    | _ => (Thrown "TypeError", heap, [])
    end.

(** [object.schema = value] on the object behind [ref] *)
Definition writeSchema (ref : nat) (value : string) : Js unit :=
  fun heap =>
    match heap !! ref with
    | Some (TypeObject type) =>
        (Fulfilled tt,
         <[ref := TypeObject {| schema := Some value;
                                dataFormats := dataFormats type |}]> heap,
         [])
    | _ => (Thrown "TypeError", heap, [])
    end.

(** [for (const typeName in types) { body }]: the body runs on the
    properties one after the other, first to last, and the loop ends with
    the first body that throws. *)
Fixpoint forIn (entries : list (string * nat))
    (body : string -> nat -> Js unit) : Js unit :=
  match entries with
  | [] => mret tt
  | (typeName, ref) :: rest => body typeName ref;; forIn rest body
  end.

Section Normalize.
Context `{Url}.

(** The body of the loop over the type names of [typesCopy]. *)
Definition normalizeType (typeName : string) (ref : nat) : Js unit :=
  type ← readType ref;
  match schema type with
  | Some schema =>
      normalized ← lift (normalizeSchemaUrl schema);
      writeSchema ref normalized
  | None => mret tt
  end.

Definition normalizeDefinition (definition : nat) : Js nat :=
  d ← readDefinition definition;
  entries ← readTypes (types d);
  typesCopy ← alloc (TypesObject entries);
  forIn entries normalizeType;;
  normalizedProtocol ← lift (normalizeProtocolUrl (protocol d));
  alloc (DefinitionObject {| protocol := normalizedProtocol;
                             types := typesCopy;
                             structure := structure d |}).

(** What the loop leaves in place of an object it visits. *)
Definition normalizedObject (o : Object) : Object :=
  match o with
  | TypeObject type =>
      match schema type with
      | Some url =>
          match normalizeSchemaUrl url with
          | Fulfilled normalized =>
              TypeObject {| schema := Some normalized;
                            dataFormats := dataFormats type |}
          | Thrown _ => o
          end
      | None => o
      end
  | _ => o
  end.

(** The heap once the loop has visited the objects behind [entries]. *)
Definition normalizedHeap (entries : list (string * nat)) (heap : Heap)
  : Heap :=
  imap (fun ref o =>
          if bool_decide (ref ∈ entries.*2) then normalizedObject o else o)
       heap.

(** Every type name leads to a type object whose schema, when it has one,
    can be normalised, and no two names lead to the same object. *)
Definition wellFormedTypes (entries : list (string * nat)) (heap : Heap)
  : Prop :=
  (forall name ref,
     (name, ref) ∈ entries ->
     exists type,
       heap !! ref = Some (TypeObject type)
       /\ forall url, schema type = Some url ->
                      exists normalized,
                        normalizeSchemaUrl url = Fulfilled normalized)
  /\ NoDup entries.*2.

End Normalize.
End ProtocolsConfigure.

(** ** utils/hd-key *)

Module HdKey.

Inductive KeyDerivationScheme := DataFormats | Protocols | Schemas.

Section Keys.
(** [PrivateJwk] of jose/types is left abstract. *)
Context {PrivateJwk : Type}.

Record DerivedPrivateJwk := mkDerivedPrivateJwk {
  rootKeyId : string;
  derivationScheme : KeyDerivationScheme;
  derivationPath : option (list string);
  derivedPrivateKey : PrivateJwk
}.

(** utils/secp256k1: the three operations used here; each may throw. *)
Class Secp256k1 := {
  privateJwkToBytes : PrivateJwk -> Completion (list Byte.byte);
  secpDerivePrivateKey :
    list Byte.byte -> list string -> Completion (list Byte.byte);
  privateKeyToJwk : list Byte.byte -> Completion PrivateJwk
}.

Context `{Secp256k1}.

Definition derivePrivateKey (ancestorKey : DerivedPrivateJwk)
    (subDerivationPath : list string) : Completion DerivedPrivateJwk :=
  ancestorPrivateKey ← privateJwkToBytes (derivedPrivateKey ancestorKey);
  let ancestorPrivateKeyDerivationPath :=
    default [] (derivationPath ancestorKey) in
  derivedPrivateKeyBytes ←
    secpDerivePrivateKey ancestorPrivateKey subDerivationPath;
  derivedPrivateJwk ← privateKeyToJwk derivedPrivateKeyBytes;
  mret {| rootKeyId := rootKeyId ancestorKey;
          derivationScheme := derivationScheme ancestorKey;
          derivationPath :=
            Some (ancestorPrivateKeyDerivationPath
                    ++ subDerivationPath)%list;
          derivedPrivateKey := derivedPrivateJwk |}.

End Keys.
Arguments DerivedPrivateJwk : clear implicits.
Arguments Secp256k1 : clear implicits.
End HdKey.

(** ** An in-memory node, to run the handlers on examples *)

Module Fixtures.
Import RecordsWrite RecordsDeleteHandler.

(** The signature string doubles as content identifier. *)
Definition signatureCid : ContentId := {| getCid := authorization |}.

Definition alice : string := "did:example:alice".

(** A gate that refuses unsigned messages at parsing, the signature
    ["forged"] at authentication, and any tenant but the author. *)
Definition ownerGate : Gate := {|
  parse m :=
    if decide (authorization m = "") then Thrown "authorization missing"
    else Fulfilled {| message := m; author := alice |};
  authenticate a :=
    if decide (a = "forged") then Thrown "signature verification failed"
    else Fulfilled tt;
  authorize r tenant :=
    if decide (author r = tenant) then Fulfilled tt
    else Thrown "not the owner of the record"
|}.

Record Store := mkStore {
  rows : list (string * Message * gmap string string);
  events : list (string * string)
}.

Definition matches (tenant : string) (q : Filter)
    (row : string * Message * gmap string string) : bool :=
  bool_decide (row.1.1 = tenant)
  && bool_decide (interface (descriptor row.1.2) = Some (filterInterface q))
  && bool_decide (recordId (descriptor row.1.2) = filterRecordId q).

Definition sameMessage (tenant : string) (m : Message)
    (row : string * Message * gmap string string) : bool :=
  bool_decide (row.1.1 = tenant) && bool_decide (row.1.2 = m).

(** Modelled from the spec: [deleteAllOlderMessagesButKeepInitialWrite]
    (records-interface) is not among the sources. Every existing message
    that the newest one outranks is removed, except the first write of
    the record, here the first of the existing messages. *)
Definition pruneOlder `{ContentId} (tenant : string)
    (existingMessages : list Message) (newestMessage : Message)
    (store : Store) : Store :=
  let old := List.filter (fun m => isNewer newestMessage m)
                         (tail existingMessages) in
  {| rows := List.filter
               (fun row => negb (existsb (fun m => sameMessage tenant m row)
                                         old))
               (rows store);
     events := events store |}.

Definition memory `{ContentId} : Backend Store := {|
  messageStore_query tenant q store :=
    Fulfilled (map (fun row => row.1.2)
                   (List.filter (matches tenant q) (rows store)));
  messageStore_put tenant m indexes store :=
    (Fulfilled tt,
     {| rows := (List.filter (fun row => negb (sameMessage tenant m row))
                             (rows store)
                 ++ [(tenant, m, indexes)])%list;
        events := events store |});
  eventLog_append tenant cid store :=
    (Fulfilled tt,
     {| rows := rows store;
        events := (events store ++ [(tenant, cid)])%list |});
  deleteAllOlderMessagesButKeepInitialWrite tenant existing newest store :=
    (Fulfilled tt, pruneOlder tenant existing newest store)
|}.

Definition records (m : DwnMethodName) (id date signature : string)
  : Message :=
  {| descriptor :=
       {| properties :=
            {[ "interface" := interfaceName Records;
               "method" := methodName m;
               "recordId" := id;
               "dateCreated" := date ]} |};
     authorization := signature |}.

Definition write1 : Message :=
  records Write "r1" "2023-01-01T00:00:00.000000Z" "w1".

(** What [ownerGate] parses a message to. *)
Definition parsed (m : Message) : RecordsDelete :=
  {| message := m; author := alice |}.

(** A record written once, and the same record after a delete. *)
Definition written : Store :=
  {| rows := [(alice, write1, ∅)]; events := [(alice, "w1")] |}.

Definition delete2 : Message :=
  records Delete "r1" "2023-01-02T00:00:00.000000Z" "d2".
Definition delete1 : Message :=
  records Delete "r1" "2023-01-01T12:00:00.000000Z" "d1".
Definition delete3 : Message :=
  records Delete "r1" "2023-01-03T00:00:00.000000Z" "d3".


Definition run (tenant : string) (m : Message) (store : Store) :=
  @handle signatureCid ownerGate Store (@memory signatureCid) tenant m store.

Definition deleted : Store := finalState (run alice delete2 written).

(** A node that serves [alice] only, validates every message whose body
    is not ["malformed"], and whose handlers count their invocations. *)
Definition onlyAlice : Dwn.TenantGate :=
  {| Dwn.isTenant tenant := Fulfilled (bool_decide (tenant = alice)) |}.

Definition counting : Dwn.Collaborators nat := {|
  Dwn.validateJsonSchema rawMessage :=
    match rawMessage with
    | Some raw =>
        if decide (Dwn.rawBody raw = "malformed")
        then Thrown "schema validation failed" else Fulfilled tt
    | None => Thrown "schema validation failed"
    end;
  Dwn.handlerHandle handler tenant rawMessage input invocations :=
    (Fulfilled {| code := 200; detail := "OK" |}, S invocations)
|}.

Definition raw (dwnInterface dwnMethod : option string) (body : string)
  : option Dwn.RawMessage :=
  Some {| Dwn.rawDescriptor :=
            Some {| Dwn.rawInterface := dwnInterface;
                    Dwn.rawMethod := dwnMethod |};
          Dwn.rawBody := body |}.

(** A normaliser that puts ["http://"] in front of a URL without it. *)
Definition withScheme (url : string) : string :=
  if String.prefix "http://" url then url else "http://" ++ url.

Definition httpUrl : ProtocolsConfigure.Url := {|
  ProtocolsConfigure.normalizeProtocolUrl url := Fulfilled (withScheme url);
  ProtocolsConfigure.normalizeSchemaUrl url := Fulfilled (withScheme url)
|}.

(** The heap of a caller that holds, at reference 2, the definition
    [{ protocol: "example.com/gallery",
       types: { photo: { schema: "example.com/photo" } },
       structure: {} }]. *)
Definition galleryHeap : ProtocolsConfigure.Heap :=
  [ ProtocolsConfigure.TypeObject
      {| ProtocolsConfigure.schema := Some "example.com/photo";
         ProtocolsConfigure.dataFormats := None |};
    ProtocolsConfigure.TypesObject [("photo", 0)];
    ProtocolsConfigure.DefinitionObject
      {| ProtocolsConfigure.protocol := "example.com/gallery";
         ProtocolsConfigure.types := 1;
         ProtocolsConfigure.structure := "{}" |} ].

(** Key operations that stand in for the curve arithmetic: a key is its
    own byte string, and a derivation step appends the path segments. *)
Definition appendingKeys : HdKey.Secp256k1 string := {|
  HdKey.privateJwkToBytes jwk :=
    if decide (jwk = "") then Thrown "not a SECP256K1 key"
    else Fulfilled (list_byte_of_string jwk);
  HdKey.secpDerivePrivateKey key path :=
    Fulfilled (key ++ concat (map list_byte_of_string path))%list;
  HdKey.privateKeyToJwk key := Fulfilled (string_of_list_byte key)
|}.

Definition rootKey : HdKey.DerivedPrivateJwk string :=
  {| HdKey.rootKeyId := "root";
     HdKey.derivationScheme := HdKey.Protocols;
     HdKey.derivationPath := None;
     HdKey.derivedPrivateKey := "k" |}.

End Fixtures.
Import Fixtures.

(** ** protocols-configure: parsing and creating a message *)

Module ProtocolsConfigureMessage.
Import ProtocolsConfigure.

(** Modelled from the spec: the message types of protocols/types are not
    among the sources; the descriptor holds what [create] puts in it, the
    definition being a reference into the heap. *)
Record ProtocolsConfigureDescriptor := mkConfigureDescriptor {
  descriptorInterface : string;
  descriptorMethod : string;
  descriptorDateCreated : string;
  descriptorDefinition : nat
}.

Record ProtocolsConfigureMessage := mkConfigureMessage {
  messageDescriptor : ProtocolsConfigureDescriptor;
  messageAuthorization : string
}.

Record ProtocolsConfigureOptions := mkConfigureOptions {
  optionDateCreated : option string;
  optionDefinition : nat;
  authorizationSignatureInput : string
}.

(** utils/url: the two checks that a URL is in normalised form. *)
Class UrlValidation := {
  validateProtocolUrlNormalized : string -> Completion unit;
  validateSchemaUrlNormalized : string -> Completion unit
}.

(** What the message class takes from core and utils: the integrity check
    of the authorization, the signing of a descriptor, the JSON schema
    check, the constructor of the base class and the clock. They look at
    the objects behind the message but do not write to them. *)
Class MessageBase (ProtocolsConfigure : Type) := {
  validateAuthorizationIntegrity :
    ProtocolsConfigureMessage -> Heap -> Completion unit;
  signAsAuthorization :
    ProtocolsConfigureDescriptor -> string -> Heap -> Completion string;
  validateJsonSchema : ProtocolsConfigureMessage -> Heap -> Completion unit;
  newProtocolsConfigure :
    ProtocolsConfigureMessage -> Heap -> Completion ProtocolsConfigure;
  getCurrentTimeInHighPrecision : string
}.

(** A call that reads the heap. *)
Definition inspect {A} (f : Heap -> Completion A) : Js A :=
  fun heap => (f heap, heap, []).

Section Messages.
Context `{Url} `{UrlValidation} {PC : Type} `{MessageBase PC}.

(** The body of the loop over the type names of [types]. *)
Definition validateType (typeName : string) (ref : nat) : Js unit :=
  type ← readType ref;
  match schema type with
  | Some schema => lift (validateSchemaUrlNormalized schema)
  | None => mret tt
  end.

Definition validateDefinitionNormalized (definition : nat) : Js unit :=
  d ← readDefinition definition;
  lift (validateProtocolUrlNormalized (protocol d));;
  entries ← readTypes (types d);
  forIn entries validateType.

Definition parse (message : ProtocolsConfigureMessage) : Js PC :=
  inspect (validateAuthorizationIntegrity message);;
  validateDefinitionNormalized
    (descriptorDefinition (messageDescriptor message));;
  inspect (newProtocolsConfigure message).

Definition create (options : ProtocolsConfigureOptions) : Js PC :=
  let dateCreated :=
    default getCurrentTimeInHighPrecision (optionDateCreated options) in
  definition ← normalizeDefinition (optionDefinition options);
  let descriptor :=
    {| descriptorInterface := interfaceName Protocols;
       descriptorMethod := methodName Configure;
       descriptorDateCreated := dateCreated;
       descriptorDefinition := definition |} in
  authorization ←
    inspect (signAsAuthorization descriptor
               (authorizationSignatureInput options));
  let message := {| messageDescriptor := descriptor;
                    messageAuthorization := authorization |} in
  inspect (validateJsonSchema message);;
  inspect (newProtocolsConfigure message).

(** Every schema that a type name of [entries] leads to is accepted as
    normalised. *)
Definition schemasNormalized (entries : list (string * nat)) (heap : Heap)
  : Prop :=
  forall typeName ref type url,
    (typeName, ref) ∈ entries ->
    heap !! ref = Some (TypeObject type) ->
    schema type = Some url ->
    validateSchemaUrlNormalized url = Fulfilled tt.

(** Every type name leads to a type object. *)
Definition typesPresent (entries : list (string * nat)) (heap : Heap)
  : Prop :=
  forall typeName ref,
    (typeName, ref) ∈ entries ->
    exists type, heap !! ref = Some (TypeObject type).

End Messages.
End ProtocolsConfigureMessage.

(** ** dwn: creating a node *)

Module DwnCreate.
Section Create.
Context {DidResolver MessageStore DataStore EventLog TenantGate : Type}.

(** [DwnConfig]: every collaborator is optional. *)
Record DwnConfig := mkDwnConfig {
  configDidResolver : option DidResolver;
  configMessageStore : option MessageStore;
  configDataStore : option DataStore;
  configTenantGate : option TenantGate;
  configEventLog : option EventLog
}.

(** The private fields of a [Dwn]; the constructor copies them from the
    configuration without a check, so each may be [undefined]. *)
Record Dwn := mkDwn {
  didResolver : option DidResolver;
  messageStore : option MessageStore;
  dataStore : option DataStore;
  eventLog : option EventLog;
  tenantGate : option TenantGate
}.

Inductive Call :=
| MessageStoreOpen (store : MessageStore)
| DataStoreOpen (store : DataStore)
| EventLogOpen (log : EventLog).

(** The default collaborators and the [open] methods of the stores, over
    the state [W] of the storage they open. *)
Class Components (W : Type) := {
  newDidResolver : DidResolver;
  newAllowAllTenantGate : TenantGate;
  newMessageStoreLevel : MessageStore;
  newDataStoreLevel : DataStore;
  newEventLogLevel : EventLog;
  messageStoreOpen : MessageStore -> W -> Completion unit * W;
  dataStoreOpen : DataStore -> W -> Completion unit * W;
  eventLogOpen : EventLog -> W -> Completion unit * W
}.

Context {W : Type} `{Components W}.

(** The constructor, as far as the fields go. *)
Definition construct (config : DwnConfig) : Dwn :=
  {| didResolver := configDidResolver config;
     messageStore := configMessageStore config;
     dataStore := configDataStore config;
     eventLog := configEventLog config;
     tenantGate := configTenantGate config |}.

(** A method call on a field that may be [undefined]. *)
Definition callMethod {A} (field : option A) (call : A -> Call)
    (run : A -> W -> Completion unit * W) : M W Call unit :=
  match field with
  | Some object => updating (call object) (run object)
  | None => throw "TypeError: Cannot read properties of undefined"
  end.

Definition open (dwn : Dwn) : M W Call unit :=
  callMethod (messageStore dwn) MessageStoreOpen messageStoreOpen;;
  callMethod (dataStore dwn) DataStoreOpen dataStoreOpen;;
  callMethod (eventLog dwn) EventLogOpen eventLogOpen.

(** [config ??= { }] followed by one [??=] for each collaborator. *)
Definition withDefaults (config : option DwnConfig) : DwnConfig :=
  let config := default (mkDwnConfig None None None None None) config in
  {| configDidResolver :=
       Some (default newDidResolver (configDidResolver config));
     configTenantGate :=
       Some (default newAllowAllTenantGate (configTenantGate config));
     configMessageStore :=
       Some (default newMessageStoreLevel (configMessageStore config));
     configDataStore :=
       Some (default newDataStoreLevel (configDataStore config));
     configEventLog :=
       Some (default newEventLogLevel (configEventLog config)) |}.

(** [Dwn.create]. The assignments [??=] write to the caller's
    configuration object, so its state after the call is returned next to
    the node. *)
Definition create (config : option DwnConfig) : M W Call (Dwn * DwnConfig) :=
  let config := withDefaults config in
  let dwn := construct config in
  open dwn;;
  mret (dwn, config).

End Create.
Arguments DwnConfig : clear implicits.
Arguments Dwn : clear implicits.
Arguments Call : clear implicits.
Arguments Components : clear implicits.
End DwnCreate.

(** ** dwn: the handler behind each bound entry point *)

Module DwnRouting.
Import Dwn.

Definition boundHandler (e : EntryPoint) : option MethodHandler :=
  match e with
  | ProcessMessage _ => None
  | HandleRecordsRead => Some RecordsReadHandler
  | HandleMessagesGet => Some MessagesGetHandler
  | SynchronizePrunedInitialRecordsWrite => Some RecordsWriteHandler
  end.

Definition boundInput (e : EntryPoint) : HandlerInput :=
  match e with
  | ProcessMessage dataStream => DataStream dataStream
  | HandleRecordsRead => NoInput
  | HandleMessagesGet => NoInput
  | SynchronizePrunedInitialRecordsWrite => Options true
  end.

End DwnRouting.

(** ** More of the in-memory node *)

Module Scenarios.
Import RecordsWrite RecordsDeleteHandler.

(** The in-memory backend with an event log that is out of order. *)
Definition brokenLog : Backend Store := {|
  messageStore_query := @messageStore_query _ (@memory signatureCid);
  messageStore_put := @messageStore_put _ (@memory signatureCid);
  eventLog_append tenant cid store := (Thrown "event log unavailable", store);
  deleteAllOlderMessagesButKeepInitialWrite :=
    @deleteAllOlderMessagesButKeepInitialWrite _ (@memory signatureCid)
|}.

(** The checks that go with [httpUrl]: a URL is in normalised form when
    normalising leaves it as it is. *)
Definition httpValidation : ProtocolsConfigureMessage.UrlValidation := {|
  ProtocolsConfigureMessage.validateProtocolUrlNormalized url :=
    if decide (withScheme url = url) then Fulfilled tt
    else Thrown "protocol URI must be normalized";
  ProtocolsConfigureMessage.validateSchemaUrlNormalized url :=
    if decide (withScheme url = url) then Fulfilled tt
    else Thrown "schema URI must be normalized"
|}.

(** A message class that signs with the signature input itself, accepts
    every authorization but the empty one, and wraps the message as it
    is. *)
Definition plainMessages
  : ProtocolsConfigureMessage.MessageBase
      ProtocolsConfigureMessage.ProtocolsConfigureMessage := {|
  ProtocolsConfigureMessage.validateAuthorizationIntegrity message heap :=
    if decide (ProtocolsConfigureMessage.messageAuthorization message = "")
    then Thrown "authorization missing" else Fulfilled tt;
  ProtocolsConfigureMessage.signAsAuthorization descriptor input heap :=
    Fulfilled input;
  ProtocolsConfigureMessage.validateJsonSchema message heap := Fulfilled tt;
  ProtocolsConfigureMessage.newProtocolsConfigure message heap :=
    Fulfilled message;
  ProtocolsConfigureMessage.getCurrentTimeInHighPrecision :=
    "2023-06-01T00:00:00.000000Z"
|}.

(** Normalisers for a node that knows no protocol URL. *)
Definition schemaOnlyUrl : ProtocolsConfigure.Url := {|
  ProtocolsConfigure.normalizeProtocolUrl url :=
    Thrown "protocol URI not normalizable";
  ProtocolsConfigure.normalizeSchemaUrl url := Fulfilled (withScheme url)
|}.

(** Normalisers that cannot make anything of an empty schema URL. *)
Definition strictUrl : ProtocolsConfigure.Url := {|
  ProtocolsConfigure.normalizeProtocolUrl url := Fulfilled (withScheme url);
  ProtocolsConfigure.normalizeSchemaUrl url :=
    if decide (url = "") then Thrown "schema URI not normalizable"
    else Fulfilled (withScheme url)
|}.

(** A definition, at reference 3, with a type [draft] whose schema is
    empty and a type [photo], enumerated in the order of [entries]. *)
Definition twoTypesHeap (entries : list (string * nat))
  : ProtocolsConfigure.Heap :=
  [ ProtocolsConfigure.TypeObject
      {| ProtocolsConfigure.schema := Some "";
         ProtocolsConfigure.dataFormats := None |};
    ProtocolsConfigure.TypeObject
      {| ProtocolsConfigure.schema := Some "example.com/photo";
         ProtocolsConfigure.dataFormats := None |};
    ProtocolsConfigure.TypesObject entries;
    ProtocolsConfigure.DefinitionObject
      {| ProtocolsConfigure.protocol := "example.com/gallery";
         ProtocolsConfigure.types := 2;
         ProtocolsConfigure.structure := "{}" |} ].

Definition galleryMessage
  : ProtocolsConfigureMessage.ProtocolsConfigureMessage :=
  {| ProtocolsConfigureMessage.messageDescriptor :=
       {| ProtocolsConfigureMessage.descriptorInterface := "Protocols";
          ProtocolsConfigureMessage.descriptorMethod := "Configure";
          ProtocolsConfigureMessage.descriptorDateCreated :=
            "2023-06-01T00:00:00.000000Z";
          ProtocolsConfigureMessage.descriptorDefinition := 2 |};
     ProtocolsConfigureMessage.messageAuthorization := "signed" |}.

Definition galleryOptions : ProtocolsConfigureMessage.ProtocolsConfigureOptions :=
  {| ProtocolsConfigureMessage.optionDateCreated := None;
     ProtocolsConfigureMessage.optionDefinition := 2;
     ProtocolsConfigureMessage.authorizationSignatureInput := "signed" |}.

(** The heap of [galleryHeap] with both URLs in normalised form. *)
Definition normalizedGalleryHeap : ProtocolsConfigure.Heap :=
  [ ProtocolsConfigure.TypeObject
      {| ProtocolsConfigure.schema := Some "http://example.com/photo";
         ProtocolsConfigure.dataFormats := None |};
    ProtocolsConfigure.TypesObject [("photo", 0)];
    ProtocolsConfigure.DefinitionObject
      {| ProtocolsConfigure.protocol := "http://example.com/gallery";
         ProtocolsConfigure.types := 1;
         ProtocolsConfigure.structure := "{}" |} ].

(** Collaborators that are their own names; opening one records the name,
    and the data store ["offline"] cannot be opened. *)
Definition namedComponents
  : DwnCreate.Components string string string string string (list string) := {|
  DwnCreate.newDidResolver := "DidResolver";
  DwnCreate.newAllowAllTenantGate := "AllowAllTenantGate";
  DwnCreate.newMessageStoreLevel := "MessageStoreLevel";
  DwnCreate.newDataStoreLevel := "DataStoreLevel";
  DwnCreate.newEventLogLevel := "EventLogLevel";
  DwnCreate.messageStoreOpen store opened :=
    (Fulfilled tt, (opened ++ [store])%list);
  DwnCreate.dataStoreOpen store opened :=
    if decide (store = "offline") then (Thrown "data store offline", opened)
    else (Fulfilled tt, (opened ++ [store])%list);
  DwnCreate.eventLogOpen log opened :=
    (Fulfilled tt, (opened ++ [log])%list)
|}.

Definition customConfig : DwnCreate.DwnConfig string string string string string :=
  {| DwnCreate.configDidResolver := None;
     DwnCreate.configMessageStore := Some "MyStore";
     DwnCreate.configDataStore := None;
     DwnCreate.configTenantGate := None;
     DwnCreate.configEventLog := None |}.

Definition offlineConfig : DwnCreate.DwnConfig string string string string string :=
  {| DwnCreate.configDidResolver := None;
     DwnCreate.configMessageStore := None;
     DwnCreate.configDataStore := Some "offline";
     DwnCreate.configTenantGate := None;
     DwnCreate.configEventLog := None |}.

End Scenarios.
Import Scenarios.

(** * Properties *)

(** ** The ordering of messages *)

Section StringOrder.

Lemma string_compare_refl (s : string) : String.compare s s = Eq.
Proof.
  pose proof (String.compare_antisym s s) as E.
  by destruct (String.compare s s).
Qed.

Lemma string_compare_gt_lt (s t : string) :
  String.compare s t = Gt <-> String.compare t s = Lt.
Proof.
  rewrite (String.compare_antisym t s).
  destruct (String.compare s t); simpl; split; congruence.
Qed.

Lemma string_compare_lt_le (s t : string) :
  String.compare s t = Lt -> String.le s t.
Proof. unfold String.le, String.leb. by intros ->. Qed.

Lemma string_compare_lt_trans (s t u : string) :
  String.compare s t = Lt -> String.compare t u = Lt ->
  String.compare s u = Lt.
Proof.
  intros Hst Htu.
  assert (String.le s u) as Hsu.
  { transitivity t; by apply string_compare_lt_le. }
  unfold String.le, String.leb in Hsu.
  destruct (String.compare s u) eqn:E; [|done|done].
  apply String.compare_eq_iff in E as ->.
  apply string_compare_gt_lt in Htu. congruence.
Qed.

End StringOrder.

Section OrderingFacts.
Import RecordsWrite.
Context `{ContentId}.

Lemma compareModifiedTime_refl a : compareModifiedTime a a = Eq.
Proof. unfold compareModifiedTime. by rewrite !string_compare_refl. Qed.

Lemma compareModifiedTime_antisym a b :
  compareModifiedTime a b = CompOpp (compareModifiedTime b a).
Proof.
  unfold compareModifiedTime.
  rewrite (String.compare_antisym (dateCreated (descriptor b))).
  destruct (String.compare _ (dateCreated (descriptor b))); simpl; auto.
  apply String.compare_antisym.
Qed.

Lemma compareModifiedTime_eq a b :
  compareModifiedTime a b = Eq <-> rank a = rank b.
Proof.
  unfold compareModifiedTime, rank. split.
  - destruct (String.compare (dateCreated _) _) eqn:E; try discriminate.
    intros E'. apply String.compare_eq_iff in E, E'. congruence.
  - intros [= -> ->]. by rewrite !string_compare_refl.
Qed.

Lemma compareModifiedTime_lt_trans a b c :
  compareModifiedTime a b = Lt -> compareModifiedTime b c = Lt ->
  compareModifiedTime a c = Lt.
Proof.
  unfold compareModifiedTime.
  destruct (String.compare (dateCreated (descriptor a))
                           (dateCreated (descriptor b))) eqn:Eab;
    try discriminate;
  destruct (String.compare (dateCreated (descriptor b))
                           (dateCreated (descriptor c))) eqn:Ebc;
    try discriminate; intros Hab Hbc.
  - apply String.compare_eq_iff in Eab, Ebc. rewrite Eab, Ebc.
    rewrite string_compare_refl. eauto using string_compare_lt_trans.
  - apply String.compare_eq_iff in Eab. by rewrite Eab, Ebc.
  - apply String.compare_eq_iff in Ebc. by rewrite <- Ebc, Eab.
  - by rewrite (string_compare_lt_trans _ _ _ Eab Ebc).
Qed.

Lemma isNewer_outranks a b : isNewer a b = true <-> outranks a b.
Proof.
  unfold isNewer, outranks, compareModifiedTime.
  destruct (String.compare (dateCreated (descriptor a)) _) eqn:E.
  - apply String.compare_eq_iff in E. rewrite <- E, string_compare_refl.
    destruct (String.compare (getCid a) (getCid b)) eqn:E';
      rewrite ?string_compare_gt_lt in E'; split;
      try discriminate; try tauto.
    + intros [|[_ ?]]; [done|].
      apply String.compare_eq_iff in E'. rewrite E' in *.
      rewrite string_compare_refl in *. done.
    + intros [|[_ ?]]; [done|].
      apply string_compare_gt_lt in E'. congruence.
  - split; [done|]. intros [Hlt|[Heq _]].
    + apply string_compare_gt_lt in E. congruence.
    + rewrite Heq, string_compare_refl in E. done.
  - apply string_compare_gt_lt in E. tauto.
Qed.

Lemma isNewer_irrefl a : isNewer a a = false.
Proof. unfold isNewer. by rewrite compareModifiedTime_refl. Qed.

Lemma isNewer_same_rank a b c :
  rank a = rank b -> isNewer a c = isNewer b c.
Proof.
  unfold isNewer, compareModifiedTime, rank. by intros [= -> ->].
Qed.

Lemma isNewer_asym a b : isNewer a b = true -> isNewer b a = false.
Proof.
  unfold isNewer. rewrite (compareModifiedTime_antisym b a).
  by destruct (compareModifiedTime a b).
Qed.

Lemma isNewer_total a b :
  rank a <> rank b -> isNewer a b = true \/ isNewer b a = true.
Proof.
  intros Hne. unfold isNewer.
  rewrite (compareModifiedTime_antisym b a).
  destruct (compareModifiedTime a b) eqn:E; simpl; auto.
  by apply compareModifiedTime_eq in E.
Qed.

(** Whoever does not outrank [n] does not outrank anything above [n]. *)
Lemma isNewer_below a n x :
  isNewer a n = false -> isNewer x n = true -> isNewer a x = false.
Proof.
  unfold isNewer. intros Han Hxn.
  destruct (compareModifiedTime x n) eqn:Exn; try discriminate.
  rewrite compareModifiedTime_antisym in Exn.
  destruct (compareModifiedTime n x) eqn:Enx; try discriminate.
  destruct (compareModifiedTime a n) eqn:Ean; try discriminate.
  - apply compareModifiedTime_eq in Ean.
    rewrite compareModifiedTime_antisym.
    rewrite compareModifiedTime_antisym in Enx.
    unfold compareModifiedTime, rank in *. injection Ean as -> ->.
    by destruct (match String.compare _ _ with Eq => _ | c => c end).
  - by rewrite (compareModifiedTime_lt_trans _ _ _ Ean Enx).
Qed.

Lemma compareModifiedTime_rank a a' b b' :
  rank a = rank a' -> rank b = rank b' ->
  compareModifiedTime a b = compareModifiedTime a' b'.
Proof.
  unfold compareModifiedTime, rank. by intros [= -> ->] [= -> ->].
Qed.

(** "Does not outrank" is transitive. *)
Lemma isNewer_false_trans a b c :
  isNewer a b = false -> isNewer b c = false -> isNewer a c = false.
Proof.
  unfold isNewer. intros Hab Hbc.
  destruct (compareModifiedTime a b) eqn:Eab; try discriminate;
    destruct (compareModifiedTime b c) eqn:Ebc; try discriminate.
  - apply compareModifiedTime_eq in Eab.
    by rewrite (compareModifiedTime_rank a b c c Eab eq_refl), Ebc.
  - apply compareModifiedTime_eq in Eab.
    by rewrite (compareModifiedTime_rank a b c c Eab eq_refl), Ebc.
  - apply compareModifiedTime_eq in Ebc.
    by rewrite <- (compareModifiedTime_rank a a b c eq_refl Ebc), Eab.
  - by rewrite (compareModifiedTime_lt_trans _ _ _ Eab Ebc).
Qed.

(** The pass that keeps the current newest, started from [n0]. *)
Lemma keep_newest_from (l : list Message) (n0 : Message) :
  exists n,
    fold_left
      (fun currentNewestMessage message =>
         match currentNewestMessage with
         | None => Some message
         | Some n => if isNewer message n then Some message else Some n
         end) l (Some n0) = Some n
    /\ (n = n0 \/ In n l)
    /\ isNewer n0 n = false
    /\ (forall m, In m l -> isNewer m n = false).
Proof.
  revert n0. induction l as [|a l IH]; intros n0; simpl.
  - exists n0. split_and!; auto using isNewer_irrefl. tauto.
  - destruct (isNewer a n0) eqn:E.
    + destruct (IH a) as (n & Hn & Hin & Ha & Hl).
      exists n. split_and!; auto.
      * destruct Hin as [->|Hin]; auto.
      * apply isNewer_asym in E. eauto using isNewer_false_trans.
      * intros m [<-|Hm]; auto.
    + destruct (IH n0) as (n & Hn & Hin & Hn0 & Hl).
      exists n. split_and!; auto.
      * destruct Hin as [->|Hin]; auto.
      * intros m [<-|Hm]; eauto using isNewer_false_trans.
Qed.

Lemma getNewestMessage_None (l : list Message) :
  getNewestMessage l = None <-> l = [].
Proof.
  split; [|by intros ->].
  destruct l as [|a l]; [done|]. unfold getNewestMessage. simpl.
  destruct (keep_newest_from l a) as (n & -> & _). done.
Qed.

(** The newest existing message is one of the messages, and none of them
    outranks it. *)
Lemma getNewestMessage_greatest (l : list Message) (n : Message) :
  getNewestMessage l = Some n ->
  In n l /\ (forall m, In m l -> isNewer m n = false).
Proof.
  destruct l as [|a l]; [done|]. unfold getNewestMessage. simpl.
  destruct (keep_newest_from l a) as (n' & -> & Hin & Ha & Hl).
  intros [= <-]. split; [destruct Hin as [->|Hin]; auto|].
  intros m [<-|Hm]; auto.
Qed.

End OrderingFacts.

(** ** The delete handler *)

Section DeleteHandlerFacts.
Import RecordsWrite RecordsDeleteHandler.
Context `{ContentId} `{Gate} {W : Type} `{Backend W}.

Ltac unfold_handle :=
  unfold handle, mbind, M_bind, bind, attempt, call, reading, updating,
    mret, M_ret, ret, outcome, finalState, calls.

Ltac branch :=
  match goal with
  | |- context [match ?x with _ => _ end] => destruct x eqn:?
  | H : context [match ?x with _ => _ end] |- _ => destruct x eqn:?
  end.

Lemma handle_conflict tenant m w rd existing n :
  parse m = Fulfilled rd ->
  authenticate (authorization m) = Fulfilled tt ->
  authorize rd tenant = Fulfilled tt ->
  messageStore_query tenant (recordsQuery m) w = Fulfilled existing ->
  getNewestMessage existing = Some n ->
  isNewer m n = false ->
  handle tenant m w
  = (Fulfilled {| code := 409; detail := "Conflict" |}, w,
     readCalls tenant m rd).
Proof.
  intros Hp Ha Hz Hq Hn Hnew. unfold_handle.
  rewrite Hp, Ha, Hz, Hq, Hn. simpl. by rewrite Hnew.
Qed.

Lemma handle_not_found tenant m w rd existing :
  parse m = Fulfilled rd ->
  authenticate (authorization m) = Fulfilled tt ->
  authorize rd tenant = Fulfilled tt ->
  messageStore_query tenant (recordsQuery m) w = Fulfilled existing ->
  fst (resolveNewest m (getNewestMessage existing)) = true ->
  missingOrDeleted (getNewestMessage existing) = true ->
  handle tenant m w
  = (Fulfilled {| code := 404; detail := "Not Found" |}, w,
     readCalls tenant m rd).
Proof.
  intros Hp Ha Hz Hq Hnew Hdel. unfold_handle.
  rewrite Hp, Ha, Hz, Hq. simpl.
  destruct (resolveNewest m (getNewestMessage existing)) as [b nm].
  simpl in Hnew. subst b. simpl. by rewrite Hdel.
Qed.

(** A run that makes a mutating call got past both checks. *)
Lemma handle_mutation_only_when_accepted tenant m w c :
  In c (calls (handle tenant m w)) -> mutates c = true ->
  exists rd existing n,
    parse m = Fulfilled rd
    /\ messageStore_query tenant (recordsQuery m) w = Fulfilled existing
    /\ getNewestMessage existing = Some n
    /\ isNewer m n = true
    /\ method (descriptor n) <> Some (methodName Delete).
Proof.
  unfold_handle. unfold resolveNewest, missingOrDeleted.
  repeat (branch; simpl in *; simplify_eq);
    intros Hin Hmut;
    repeat (destruct Hin as [<-|Hin]; [discriminate || idtac|]);
    try done;
    try (eexists _, _, _; split_and!; eauto;
         by match goal with
            | E : bool_decide _ = false |- _ =>
                apply bool_decide_eq_false in E
            end).
Qed.

(** C1, as amended. A delete that passed parsing and authorization is
    answered 404 Not Found, with nothing stored, when no message exists
    for the record id, or when the newest existing message is itself a
    delete that the incoming message strictly outranks. *)
Theorem delete_of_missing_or_deleted_is_not_found tenant m w rd existing :
  parse m = Fulfilled rd ->
  authenticate (authorization m) = Fulfilled tt ->
  authorize rd tenant = Fulfilled tt ->
  messageStore_query tenant (recordsQuery m) w = Fulfilled existing ->
  (existing = []
   \/ exists n, getNewestMessage existing = Some n
               /\ method (descriptor n) = Some (methodName Delete)
               /\ outranks m n) ->
  handle tenant m w
  = (Fulfilled {| code := 404; detail := "Not Found" |}, w,
     readCalls tenant m rd).
Proof.
  intros Hp Ha Hz Hq Hcase. apply (handle_not_found _ _ _ _ existing); auto.
  - destruct Hcase as [->|(n & -> & _ & Hout)]; [done|].
    apply isNewer_outranks in Hout. simpl. by rewrite Hout.
  - destruct Hcase as [->|(n & -> & Hdel & _)]; [done|].
    simpl. by apply bool_decide_eq_true.
Qed.

(** C2. For a delete that passed parsing and authorization, the incoming
    message is taken as the newest exactly when no message exists for
    the record id or the incoming message strictly outranks the newest
    existing one; exactly then the reply is not 409 Conflict, and
    otherwise the reply is 409 Conflict with nothing stored. *)
Theorem conflict_unless_incoming_is_newest tenant m w rd existing :
  parse m = Fulfilled rd ->
  authenticate (authorization m) = Fulfilled tt ->
  authorize rd tenant = Fulfilled tt ->
  messageStore_query tenant (recordsQuery m) w = Fulfilled existing ->
  let proceeds :=
    existing = []
    \/ exists n, getNewestMessage existing = Some n /\ outranks m n in
  (proceeds <-> resolveNewest m (getNewestMessage existing) = (true, m))
  /\ (proceeds <->
      outcome (handle tenant m w)
      <> Fulfilled {| code := 409; detail := "Conflict" |})
  /\ (~ proceeds ->
      handle tenant m w
      = (Fulfilled {| code := 409; detail := "Conflict" |}, w,
         readCalls tenant m rd)).
Proof.
  intros Hp Ha Hz Hq proceeds.
  assert (proceeds <-> resolveNewest m (getNewestMessage existing)
                       = (true, m)) as Hres.
  { subst proceeds. unfold resolveNewest.
    destruct (getNewestMessage existing) as [n|] eqn:En.
    - destruct (isNewer m n) eqn:E.
      + split; [done|]. intros _. right. exists n.
        by rewrite <- isNewer_outranks.
      + split; [|done]. intros [->|(n' & [= <-] & Hout)]; [done|].
        apply isNewer_outranks in Hout. congruence.
    - split; [done|]. intros _. left. by apply getNewestMessage_None. }
  assert (~ proceeds ->
          handle tenant m w
          = (Fulfilled {| code := 409; detail := "Conflict" |}, w,
             readCalls tenant m rd)) as Hconflict.
  { intros Hnot. rewrite Hres in Hnot. unfold resolveNewest in Hnot.
    destruct (getNewestMessage existing) as [n|] eqn:En; [|done].
    destruct (isNewer m n) eqn:E; [done|].
    eapply handle_conflict; eauto. }
  split_and!; auto.
  split.
  - intros Hpro. apply Hres in Hpro. revert Hpro. unfold_handle.
    rewrite Hp, Ha, Hz, Hq. simpl. intros ->. simpl.
    repeat (branch; simpl); congruence.
  - intros Hne. destruct (decide (resolveNewest m (getNewestMessage existing)
                                  = (true, m))) as [Heq|Hneq].
    + by apply Hres.
    + exfalso. apply Hne. rewrite Hconflict; [done|]. by rewrite Hres.
Qed.

(** C3. Whenever the handler replies 400, 401, 404 or 409, the backend
    state after the run is the state before it, and the run made no
    call to [messageStore.put], [eventLog.append] or the pruning of
    older messages. *)
Theorem rejection_has_no_side_effect tenant m w reply :
  outcome (handle tenant m w) = Fulfilled reply ->
  In (code reply) [400; 401; 404; 409] ->
  finalState (handle tenant m w) = w
  /\ Forall (fun c => mutates c = false) (calls (handle tenant m w)).
Proof.
  unfold_handle. unfold fromError.
  repeat (branch; simpl in *; simplify_eq);
    intros Hout Hcode; simplify_eq; simpl in *;
    try (split; [done|repeat constructor]);
    exfalso; intuition discriminate.
Qed.

(** C4. For two messages whose (dateCreated, ContentId) pairs differ,
    the handler's comparison settles on the same newest message
    whichever of the two is the existing one and whichever the incoming
    one: the one with the later timestamp, and at exactly equal
    timestamps the one with the greater content identifier. *)
Theorem resolution_is_independent_of_arrival_order (a b : Message) :
  rank a <> rank b ->
  let winner := snd (resolveNewest b (getNewestMessage [a])) in
  snd (resolveNewest a (getNewestMessage [b])) = winner
  /\ (winner = a \/ winner = b)
  /\ isNewer a winner = false /\ isNewer b winner = false
  /\ match String.compare (dateCreated (descriptor a))
                          (dateCreated (descriptor b)) with
     | Gt => winner = a
     | Lt => winner = b
     | Eq => match String.compare (getCid a) (getCid b) with
             | Gt => winner = a
             | _ => winner = b
             end
     end.
Proof.
  intros Hne winner. subst winner. unfold getNewestMessage. simpl.
  assert (isNewer a b = negb (isNewer b a)) as Hopp.
  { destruct (isNewer_total a b Hne) as [E|E]; rewrite E.
    - by rewrite (isNewer_asym _ _ E).
    - by rewrite (isNewer_asym _ _ E). }
  rewrite Hopp.
  pose proof (isNewer_irrefl a) as Ha. pose proof (isNewer_irrefl b) as Hb.
  assert (isNewer b a = match compareModifiedTime a b with
                        | Lt => true | _ => false end) as Hcmp.
  { unfold isNewer. rewrite (compareModifiedTime_antisym b a).
    by destruct (compareModifiedTime a b). }
  unfold compareModifiedTime in Hcmp.
  destruct (isNewer b a) eqn:E; simpl; rewrite ?Hopp, ?E; simpl;
    split_and!; auto;
    destruct (String.compare (dateCreated (descriptor a)) _) eqn:Ed;
    try done;
    destruct (String.compare (getCid a) _) eqn:Ec; try done;
    apply String.compare_eq_iff in Ed, Ec;
    exfalso; apply Hne; unfold rank; congruence.
Qed.

(** C5. When a message with the content identifier and timestamp of the
    incoming one is already among the existing messages of the record,
    the incoming message is not accepted: the reply is 400, 401 or 409
    (409 once parsing and authorization passed), the backend state is
    left as it was, so the newest stored message stays the same, and
    nothing is appended to the event log. *)
Theorem replay_is_not_accepted tenant m w existing stored :
  messageStore_query tenant (recordsQuery m) w = Fulfilled existing ->
  In stored existing ->
  getCid stored = getCid m ->
  dateCreated (descriptor stored) = dateCreated (descriptor m) ->
  exists reply,
    outcome (handle tenant m w) = Fulfilled reply
    /\ In (code reply) [400; 401; 409]
    /\ (forall rd, parse m = Fulfilled rd ->
                   authenticate (authorization m) = Fulfilled tt ->
                   authorize rd tenant = Fulfilled tt ->
                   reply = {| code := 409; detail := "Conflict" |})
    /\ finalState (handle tenant m w) = w
    /\ Forall (fun c => mutates c = false) (calls (handle tenant m w)).
Proof.
  intros Hq Hin Hcid Hdate.
  assert (exists n, getNewestMessage existing = Some n
                    /\ isNewer m n = false) as (n & Hn & Hnew).
  { destruct (getNewestMessage existing) as [n|] eqn:En.
    - exists n. split; [done|].
      apply getNewestMessage_greatest in En as [_ Hmax].
      rewrite <- (Hmax stored Hin). symmetry.
      apply isNewer_same_rank. unfold rank. congruence.
    - apply getNewestMessage_None in En. by subst. }
  destruct (parse m) as [rd|e] eqn:Hp.
  - destruct (authenticate (authorization m)) as [[]|e] eqn:Ha.
    + destruct (authorize rd tenant) as [[]|e] eqn:Hz.
      * rewrite (handle_conflict tenant m w rd existing n); auto.
        eexists; split_and!;
          [done|simpl; auto|intros; congruence|done|].
        repeat constructor.
      * unfold_handle. rewrite Hp, Ha, Hz. simpl.
        eexists; split_and!;
          [done|simpl; auto|intros; congruence|done|].
        repeat constructor.
    + unfold_handle. rewrite Hp, Ha. simpl.
      eexists; split_and!;
        [done|simpl; auto|intros; congruence|done|].
      repeat constructor.
  - unfold_handle. rewrite Hp. simpl.
    eexists; split_and!;
      [done|simpl; auto|intros; congruence|done|].
    repeat constructor.
Qed.

(** The index row, property by property: a property of the descriptor
    under its own name, the resolved author under [author] when the
    descriptor has no property of that name, and nothing else. *)
Lemma constructIndexes_lookup tenant (recordsDelete : RecordsDelete) field :
  constructIndexes tenant recordsDelete !! field
  = match properties (descriptor (message recordsDelete)) !! field with
    | Some value => Some value
    | None =>
        if decide (field = "author") then Some (author recordsDelete)
        else None
    end.
Proof.
  unfold constructIndexes. cbn zeta.
  destruct (properties (descriptor (message recordsDelete)) !! field)
    as [value|] eqn:Hfield.
  - by apply lookup_union_Some_l.
  - rewrite lookup_union_r by done.
    destruct (decide (field = "author")) as [->|Hne].
    + by rewrite lookup_singleton_eq.
    + by rewrite lookup_singleton_ne.
Qed.


(** In every run, also one cut short by a rejection or an exception, the
    calls are the first stages of the pipeline, in order. *)
Lemma handle_calls_follow_the_stages tenant m w :
  map stage (calls (handle tenant m w))
  = seq 0 (length (calls (handle tenant m w))).
Proof.
  unfold_handle.
  repeat (branch; simpl in *; simplify_eq); reflexivity.
Qed.

(** Older messages are pruned only once the incoming message has been
    put in the message store and logged, whatever happens afterwards. *)
Lemma prune_follows_persistence tenant m w c :
  In c (calls (handle tenant m w)) -> stage c = 6 ->
  exists rd existing w1 w2,
    parse m = Fulfilled rd
    /\ messageStore_query tenant (recordsQuery m) w = Fulfilled existing
    /\ messageStore_put tenant m (constructIndexes tenant rd) w
       = (Fulfilled tt, w1)
    /\ eventLog_append tenant (getCid m) w1 = (Fulfilled tt, w2)
    /\ c = Prune tenant existing m.
Proof.
  unfold_handle. unfold resolveNewest.
  repeat (branch; simpl in *; simplify_eq);
    intros Hin Hstage;
    repeat (destruct Hin as [<-|Hin]; [try discriminate|]);
    try done;
    repeat match goal with u : unit |- _ => destruct u end;
    eexists _, _, _, _; split_and!; eauto.
Qed.

(** C7. A run that replies 202 Accepted went through every stage, each
    one returning before the next was made: the message parsed, the
    signature authenticated and the author authorized for the tenant,
    the query returned the existing messages, among which the incoming
    message is the newest and the newest existing one is not a delete,
    the put of the incoming message with its index row returned, then
    the append of its content identifier to the event log, on the state
    the put left, then the pruning of the older messages with the
    incoming message as the newest, on the state the append left; the
    run ends in the state the pruning left, and these seven calls, in
    this order, are all the calls it made. *)
Theorem admission_runs_the_stages_in_order tenant m w reply :
  outcome (handle tenant m w) = Fulfilled reply ->
  code reply = 202 ->
  exists rd existing w1 w2 w3,
    parse m = Fulfilled rd
    /\ authenticate (authorization m) = Fulfilled tt
    /\ authorize rd tenant = Fulfilled tt
    /\ messageStore_query tenant (recordsQuery m) w = Fulfilled existing
    /\ resolveNewest m (getNewestMessage existing) = (true, m)
    /\ missingOrDeleted (getNewestMessage existing) = false
    /\ messageStore_put tenant m (constructIndexes tenant rd) w
       = (Fulfilled tt, w1)
    /\ eventLog_append tenant (getCid m) w1 = (Fulfilled tt, w2)
    /\ deleteAllOlderMessagesButKeepInitialWrite tenant existing m w2
       = (Fulfilled tt, w3)
    /\ finalState (handle tenant m w) = w3
    /\ reply = {| code := 202; detail := "Accepted" |}
    /\ calls (handle tenant m w) = admissionCalls tenant m rd existing
    /\ map stage (calls (handle tenant m w)) = [0; 1; 2; 3; 4; 5; 6].
Proof.
  unfold_handle. unfold fromError, resolveNewest, admissionCalls, readCalls.
  repeat (branch; simpl in *; simplify_eq);
    intros Hout Hcode; simplify_eq; simpl in *; try discriminate;
    repeat match goal with u : unit |- _ => destruct u end;
    eexists _, _, _, _, _; split_and!; eauto.
  - match goal with E : getNewestMessage _ = _ |- _ => rewrite E end.
    match goal with E : isNewer _ _ = _ |- _ => by rewrite E end.
  - match goal with E : getNewestMessage _ = _ |- _ => by rewrite E end.
Qed.

End DeleteHandlerFacts.

(** *** The handler on the in-memory node *)

Section DeleteHandlerExamples.
Import RecordsWrite RecordsDeleteHandler.

#[local] Existing Instance signatureCid.
#[local] Existing Instance ownerGate.
#[local] Existing Instance memory.

(** C1, counterexample. The record of [deleted] was written and then
    deleted by [delete2], so its newest message is a delete; the delete
    [delete1] carries an earlier timestamp, passes parsing and
    authorization, and is answered 409 Conflict, not 404. *)
Lemma older_delete_of_deleted_record_conflicts :
  parse delete1 = Fulfilled (parsed delete1)
  /\ authenticate (authorization delete1) = Fulfilled tt
  /\ authorize (parsed delete1) alice = Fulfilled tt
  /\ messageStore_query alice (recordsQuery delete1) deleted
     = Fulfilled [write1; delete2]
  /\ @getNewestMessage signatureCid [write1; delete2] = Some delete2
  /\ method (descriptor delete2) = Some (methodName Delete)
  /\ outcome (run alice delete1 deleted)
     = Fulfilled {| code := 409; detail := "Conflict" |}
  /\ outcome (run alice delete1 deleted)
     <> Fulfilled {| code := 404; detail := "Not Found" |}.
Proof. split_and!; try (vm_compute; reflexivity). by vm_compute. Qed.

Lemma delete_of_missing_or_deleted_is_not_found_witness :
  run alice delete3 deleted
  = (Fulfilled {| code := 404; detail := "Not Found" |}, deleted,
     readCalls alice delete3 (parsed delete3)).
Proof.
  apply (@delete_of_missing_or_deleted_is_not_found
           signatureCid ownerGate Store memory
           alice delete3 deleted (parsed delete3) [write1; delete2]);
    try (vm_compute; reflexivity).
  right. exists delete2.
  split; [vm_compute; reflexivity|]. split; [reflexivity|].
  left. vm_compute; reflexivity.
Defined.

Lemma conflict_unless_incoming_is_newest_witness :
  handle alice delete1 deleted
  = (Fulfilled {| code := 409; detail := "Conflict" |}, deleted,
     readCalls alice delete1 (parsed delete1)).
Proof.
  apply (@conflict_unless_incoming_is_newest
           signatureCid ownerGate Store memory
           alice delete1 deleted (parsed delete1) [write1; delete2]);
    try (vm_compute; reflexivity).
  intros [Hnil|(n & Hn & Hout)]; [discriminate|].
  vm_compute in Hn. injection Hn as <-.
  destruct Hout as [Hlt|[_ Hlt]]; vm_compute in Hlt; discriminate.
Defined.

Lemma rejection_has_no_side_effect_witness :
  finalState (run alice delete1 deleted) = deleted
  /\ Forall (fun c => mutates c = false) (calls (run alice delete1 deleted)).
Proof.
  apply (@rejection_has_no_side_effect
           signatureCid ownerGate Store memory alice delete1 deleted
           {| code := 409; detail := "Conflict" |}).
  - vm_compute; reflexivity.
  - simpl. tauto.
Defined.

Lemma resolution_is_independent_of_arrival_order_witness :
  snd (resolveNewest delete1 (getNewestMessage [delete2]))
  = snd (resolveNewest delete2 (getNewestMessage [delete1])).
Proof.
  apply (@resolution_is_independent_of_arrival_order
           signatureCid delete1 delete2).
  vm_compute. discriminate.
Defined.

Lemma replay_is_not_accepted_witness :
  exists reply,
    outcome (run alice delete2 deleted) = Fulfilled reply
    /\ In (code reply) [400; 401; 409]
    /\ (forall rd, parse delete2 = Fulfilled rd ->
                   authenticate (authorization delete2) = Fulfilled tt ->
                   authorize rd alice = Fulfilled tt ->
                   reply = {| code := 409; detail := "Conflict" |})
    /\ finalState (run alice delete2 deleted) = deleted
    /\ Forall (fun c => mutates c = false)
              (calls (run alice delete2 deleted)).
Proof.
  apply (@replay_is_not_accepted
           signatureCid ownerGate Store memory alice delete2 deleted
           [write1; delete2] delete2).
  - vm_compute; reflexivity.
  - simpl. tauto.
  - reflexivity.
  - reflexivity.
Defined.



Lemma admission_runs_the_stages_in_order_witness :
  exists rd existing w1 w2 w3,
    parse delete2 = Fulfilled rd
    /\ authenticate (authorization delete2) = Fulfilled tt
    /\ authorize rd alice = Fulfilled tt
    /\ messageStore_query alice (recordsQuery delete2) written
       = Fulfilled existing
    /\ resolveNewest delete2 (getNewestMessage existing) = (true, delete2)
    /\ missingOrDeleted (getNewestMessage existing) = false
    /\ messageStore_put alice delete2 (constructIndexes alice rd) written
       = (Fulfilled tt, w1)
    /\ eventLog_append alice (getCid delete2) w1 = (Fulfilled tt, w2)
    /\ deleteAllOlderMessagesButKeepInitialWrite alice existing delete2 w2
       = (Fulfilled tt, w3)
    /\ finalState (run alice delete2 written) = w3
    /\ {| code := 202; detail := "Accepted" |}
       = {| code := 202; detail := "Accepted" |}
    /\ calls (run alice delete2 written)
       = admissionCalls alice delete2 rd existing
    /\ map stage (calls (run alice delete2 written))
       = [0; 1; 2; 3; 4; 5; 6].
Proof.
  apply (@admission_runs_the_stages_in_order
           signatureCid ownerGate Store memory alice delete2 written
           {| code := 202; detail := "Accepted" |}).
  - vm_compute; reflexivity.
  - reflexivity.
Defined.

(** The scenario of the spec: a delete with no prior write is answered
    404, and the node stays empty. *)
Example delete_without_prior_write :
  run alice delete2 (mkStore [] [])
  = (Fulfilled {| code := 404; detail := "Not Found" |}, mkStore [] [],
     readCalls alice delete2 (parsed delete2)).
Proof. vm_compute; reflexivity. Qed.

(** An accepted delete is stored next to the first write and logged. *)
Example delete_after_write :
  outcome (run alice delete2 written)
  = Fulfilled {| code := 202; detail := "Accepted" |}
  /\ map (fun row => row.1.2) (rows deleted) = [write1; delete2]
  /\ events deleted = [(alice, "w1"); (alice, "d2")].
Proof. split_and!; vm_compute; reflexivity. Qed.

End DeleteHandlerExamples.

(** ** The pre-flight checks of the node *)

Section DwnFacts.
Import Dwn.
Context `{TenantGate} {W : Type} `{Collaborators W}.

#[local] Opaque methodHandlers.

Ltac unfold_checks :=
  unfold enter, processMessage, handleRecordsRead, handleMessagesGet,
    synchronizePrunedInitialRecordsWrite, dispatch, preprocessingChecks,
    mbind, M_bind, bind, attempt, call, reading, updating, throw,
    mret, M_ret, ret, outcome, finalState, calls.

Ltac branch :=
  match goal with
  | |- context [match ?x with _ => _ end] => destruct x eqn:?
  | H : context [match ?x with _ => _ end] |- _ => destruct x eqn:?
  end.

(** The checks never change the state of the node. *)
Lemma preprocessingChecks_reads_only tenant rawMessage ei em w :
  finalState (preprocessingChecks tenant rawMessage ei em w) = w.
Proof. unfold_checks. by repeat (branch; simpl in *; simplify_eq). Qed.

Lemma mismatch_true {A} (name : A -> string) expected received :
  mismatch name expected received = true
  <-> exists e, expected = Some e /\ name e <> received.
Proof.
  unfold mismatch. destruct expected as [e|].
  - rewrite negb_true_iff, String.eqb_neq. split.
    + intros Hne. by exists e.
    + by intros (e' & [= <-] & Hne).
  - split; [done|]. by intros (e' & [=] & _).
Qed.

(** What a run of the checks looks like: the state is untouched, no
    handler is called, and the checks pass only on a served tenant with
    matching interface and method and a valid schema. *)
Lemma preprocessingChecks_outcome tenant rawMessage ei em w :
  exists r t,
    preprocessingChecks tenant rawMessage ei em w = (r, w, t)
    /\ Forall (fun c => isHandle c = false) t
    /\ (r = Fulfilled None ->
        isTenant tenant = Fulfilled true
        /\ (exists received,
              dwnInterfaceOf rawMessage = Some received.1
              /\ dwnMethodOf rawMessage = Some received.2
              /\ mismatch interfaceName ei received.1 = false
              /\ mismatch methodName em received.2 = false)
        /\ validateJsonSchema rawMessage = Fulfilled tt).
Proof.
  unfold_checks.
  destruct (isTenant tenant) as [[]|]; simpl;
    [|by eexists _, _; split_and!; [done|repeat constructor|]..].
  destruct (dwnInterfaceOf rawMessage) as [ri|]; simpl;
    [|by eexists _, _; split_and!; [done|repeat constructor|]].
  destruct (dwnMethodOf rawMessage) as [rm|]; simpl;
    [|by eexists _, _; split_and!; [done|repeat constructor|]].
  destruct (mismatch interfaceName ei ri) eqn:Ei; simpl;
    [by eexists _, _; split_and!; [done|repeat constructor|]|].
  destruct (mismatch methodName em rm) eqn:Em; simpl;
    [by eexists _, _; split_and!; [done|repeat constructor|]|].
  destruct (validateJsonSchema rawMessage) as [[]|]; simpl;
    [|by eexists _, _; split_and!; [done|repeat constructor|]].
  eexists _, _; split_and!; [done|repeat constructor|].
  intros _. split_and!; [done| |done]. by exists (ri, rm).
Qed.

(** C8. The checks shared by the entry points run in order and the
    first failure is final. A tenant the node does not serve gets 401
    whatever the message looks like, after the tenant gate alone was
    asked; for a served tenant a message without interface or method,
    or with one that differs from the interface or method the entry
    point is bound to, gets 400 before any schema validation; each of
    the four entry points returns the reply of a failed check as it is,
    without calling a handler; and a handler is called only when the
    tenant is served, interface and method are present and match, and
    the schema validation passed. *)
Theorem preflight_checks_are_ordered_and_terminal
    (tenant : string) (rawMessage : option RawMessage) (w : W) :
  (forall ei em,
     isTenant tenant = Fulfilled false ->
     preprocessingChecks tenant rawMessage ei em w
     = (Fulfilled (Some {| code := 401;
                           detail := tenant ++ " is not a tenant" |}),
        w, [IsTenant tenant]))
  /\ (forall ei em,
      isTenant tenant = Fulfilled true ->
      dwnInterfaceOf rawMessage = None \/ dwnMethodOf rawMessage = None ->
      exists detail,
        preprocessingChecks tenant rawMessage ei em w
        = (Fulfilled (Some {| code := 400; detail := detail |}),
           w, [IsTenant tenant]))
  /\ (forall ei em received,
      isTenant tenant = Fulfilled true ->
      dwnInterfaceOf rawMessage = Some received.1 ->
      dwnMethodOf rawMessage = Some received.2 ->
      (exists e, ei = Some e /\ interfaceName e <> received.1)
      \/ (exists e, em = Some e /\ methodName e <> received.2) ->
      exists detail,
        preprocessingChecks tenant rawMessage ei em w
        = (Fulfilled (Some {| code := 400; detail := detail |}),
           w, [IsTenant tenant]))
  /\ (forall e reply,
      outcome (preprocessingChecks tenant rawMessage
                 (expectedInterface e) (expectedMethod e) w)
      = Fulfilled (Some reply) ->
      enter e tenant rawMessage w
      = (Fulfilled reply, w,
         calls (preprocessingChecks tenant rawMessage
                  (expectedInterface e) (expectedMethod e) w))
      /\ Forall (fun c => isHandle c = false)
                (calls (enter e tenant rawMessage w)))
  /\ (forall e c,
      In c (calls (enter e tenant rawMessage w)) -> isHandle c = true ->
      isTenant tenant = Fulfilled true
      /\ (exists received,
            dwnInterfaceOf rawMessage = Some received.1
            /\ dwnMethodOf rawMessage = Some received.2
            /\ mismatch interfaceName (expectedInterface e) received.1
               = false
            /\ mismatch methodName (expectedMethod e) received.2 = false)
      /\ validateJsonSchema rawMessage = Fulfilled tt
      /\ outcome (preprocessingChecks tenant rawMessage
                    (expectedInterface e) (expectedMethod e) w)
         = Fulfilled None).
Proof.
  split_and!.
  - intros ei em Ht. unfold_checks. by rewrite Ht.
  - intros ei em Ht Hmissing. unfold_checks. rewrite Ht. simpl.
    destruct Hmissing as [-> | Hm].
    + eexists. reflexivity.
    + rewrite Hm. destruct (dwnInterfaceOf rawMessage); eexists; reflexivity.
  - intros ei em [ri rm] Ht Hi Hm Hbad. simpl in *. unfold_checks.
    rewrite Ht, Hi, Hm. simpl.
    destruct (mismatch interfaceName ei ri) eqn:Ei;
      [eexists; reflexivity|].
    destruct Hbad as [Hbad|Hbad].
    + apply mismatch_true in Hbad. congruence.
    + apply mismatch_true in Hbad. rewrite Hbad. eexists; reflexivity.
  - intros e reply Hout.
    destruct (preprocessingChecks_outcome tenant rawMessage
                (expectedInterface e) (expectedMethod e) w)
      as (r & t & Heq & Hquiet & _).
    rewrite Heq in Hout |- *. unfold outcome, calls in *. simpl in Hout.
    subst r.
    assert (enter e tenant rawMessage w = (Fulfilled reply, w, t)) as ->.
    { destruct e; simpl in Heq;
        unfold enter, processMessage, handleRecordsRead, handleMessagesGet,
          synchronizePrunedInitialRecordsWrite, mbind, M_bind, bind;
        rewrite Heq; unfold mret, M_ret, ret; simpl;
        by rewrite app_nil_r. }
    done.
  - intros e c Hin Hc.
    destruct (preprocessingChecks_outcome tenant rawMessage
                (expectedInterface e) (expectedMethod e) w)
      as (r & t & Heq & Hquiet & Hpass).
    assert (r <> Fulfilled None -> calls (enter e tenant rawMessage w) = t)
      as Hstop.
    { intros Hr. destruct e; simpl in Heq;
        unfold enter, processMessage, handleRecordsRead, handleMessagesGet,
          synchronizePrunedInitialRecordsWrite, mbind, M_bind, bind;
        rewrite Heq; unfold mret, M_ret, ret, calls;
        destruct r as [[reply|]|err]; simpl; try done;
        by rewrite app_nil_r. }
    assert (r = Fulfilled None \/ r <> Fulfilled None) as [->|Hr].
    { destruct r as [[reply|]|err]; auto. }
    + destruct Hpass as (Ht & Hshape & Hvalid); [done|].
      split_and!; auto. unfold outcome. by rewrite Heq.
    + rewrite (Hstop Hr) in Hin. rewrite Forall_forall in Hquiet.
      apply list_elem_of_In, Hquiet in Hin. congruence.
Qed.

End DwnFacts.

Section DwnExamples.
Import Dwn.
#[local] Existing Instance onlyAlice.
#[local] Existing Instance counting.

(** A tenant that is not served is turned away before the message is
    looked at. *)
Example stranger_is_unauthorized :
  processMessage "did:example:bob" None None 0
  = (Fulfilled {| code := 401;
                  detail := "did:example:bob is not a tenant" |},
     0, [IsTenant "did:example:bob"]).
Proof. reflexivity. Qed.

Example missing_method_is_bad_request :
  handleRecordsRead alice (raw (Some "Records") None "{}") 0
  = (Fulfilled {| code := 400;
       detail := "Both interface and method must be present, "
                 ++ "interface: Records, method: undefined" |},
     0, [IsTenant alice]).
Proof. reflexivity. Qed.

Example wrong_method_is_bad_request :
  handleRecordsRead alice (raw (Some "Records") (Some "Write") "{}") 0
  = (Fulfilled {| code := 400;
       detail := "Expected method RecordsRead, received RecordsWrite" |},
     0, [IsTenant alice]).
Proof. reflexivity. Qed.

Example valid_delete_is_dispatched :
  processMessage alice (raw (Some "Records") (Some "Delete") "{}") None 0
  = (Fulfilled {| code := 200; detail := "OK" |}, 1,
     [ IsTenant alice;
       ValidateJsonSchema (raw (Some "Records") (Some "Delete") "{}");
       Handle RecordsDeleteHandler alice
              (raw (Some "Records") (Some "Delete") "{}")
              (DataStream None) ]).
Proof. vm_compute; reflexivity. Qed.

End DwnExamples.

(** ** Normalising a protocol definition *)

Section NormalizeFacts.
Import ProtocolsConfigure.
Context `{Url}.

Lemma normalizedHeap_lookup entries (heap : Heap) ref :
  normalizedHeap entries heap !! ref
  = (fun o => if bool_decide (ref ∈ entries.*2)
              then normalizedObject o else o) <$> heap !! ref.
Proof. unfold normalizedHeap. by rewrite list_lookup_imap. Qed.

Lemma normalizedHeap_length entries (heap : Heap) :
  length (normalizedHeap entries heap) = length heap.
Proof. apply length_imap. Qed.

(** Objects that no type name leads to, and objects that are not type
    objects, are left alone. *)
Lemma normalizedHeap_frame entries (heap : Heap) ref o :
  heap !! ref = Some o ->
  ref ∉ entries.*2 \/ (forall type, o <> TypeObject type) ->
  normalizedHeap entries heap !! ref = Some o.
Proof.
  intros Hr Hcase. rewrite normalizedHeap_lookup, Hr. simpl.
  case_bool_decide as Hin; [|done].
  destruct Hcase as [Hout|Hother]; [done|].
  destruct o as [type| |]; [by destruct (Hother type)|done..].
Qed.

Lemma entry_leads_to_its_reference (entries : list (string * nat)) name ref :
  (name, ref) ∈ entries -> ref ∈ entries.*2.
Proof. intros Hin. apply list_elem_of_fmap. by exists (name, ref). Qed.

(** The types the loop has yet to visit are still well formed after the
    visit of the first one. *)
Lemma wellFormedTypes_rest name ref rest (heap : Heap) o :
  wellFormedTypes ((name, ref) :: rest) heap ->
  wellFormedTypes rest (<[ref := normalizedObject o]> heap)
  /\ ref ∉ rest.*2.
Proof.
  intros [Hobj Hdistinct]. rewrite fmap_cons in Hdistinct.
  apply NoDup_cons in Hdistinct as [Hout Hdistinct].
  split; [split|]; [|done..].
  intros name' ref' Hin.
  destruct (Hobj name' ref') as (type & Hr & Hnorm); [by right|].
  exists type. split; [|done].
  rewrite list_lookup_insert_ne; [done|].
  intros <-. apply Hout. by eapply entry_leads_to_its_reference.
Qed.

(** One visited object, and the rest of the visits. *)
Lemma normalizedHeap_cons name ref rest (heap : Heap) o :
  ref ∉ rest.*2 ->
  heap !! ref = Some o ->
  normalizedHeap rest (<[ref := normalizedObject o]> heap)
  = normalizedHeap ((name, ref) :: rest) heap.
Proof.
  intros Hout Hr. apply list_eq. intros j.
  rewrite !normalizedHeap_lookup, fmap_cons. simpl.
  destruct (decide (j = ref)) as [->|Hne].
  - rewrite list_lookup_insert_eq by eauto using lookup_lt_Some.
    rewrite Hr. simpl.
    rewrite bool_decide_eq_false_2 by done.
    by rewrite bool_decide_eq_true_2 by apply list_elem_of_here.
  - rewrite list_lookup_insert_ne by done.
    destruct (heap !! j) as [o'|]; [|done]. simpl.
    assert (bool_decide (j ∈ rest.*2) = bool_decide (j ∈ ref :: rest.*2))
      as ->; [|done].
    apply bool_decide_ext. rewrite elem_of_cons. tauto.
Qed.

Lemma normalizedHeap_nil (heap : Heap) : normalizedHeap [] heap = heap.
Proof.
  apply list_eq. intros j. rewrite normalizedHeap_lookup.
  by destruct (heap !! j).
Qed.

(** The loop over the type names overwrites, in place, the schema of
    every type object it reaches. *)
Lemma normalize_loop entries (heap : Heap) :
  wellFormedTypes entries heap ->
  forIn entries normalizeType heap
  = (Fulfilled tt, normalizedHeap entries heap, []).
Proof.
  revert heap. induction entries as [|[name ref] rest IH]; intros heap Hwf.
  - simpl. by rewrite normalizedHeap_nil.
  - destruct (proj1 Hwf name ref) as (type & Hr & Hnorm); [by left|].
    destruct (wellFormedTypes_rest name ref rest heap (TypeObject type) Hwf)
      as [Hwf' Hout].
    rewrite <- (normalizedHeap_cons name ref rest heap _ Hout Hr).
    specialize (IH _ Hwf').
    assert (normalizeType name ref heap
            = (Fulfilled tt, <[ref := normalizedObject (TypeObject type)]> heap,
               [])) as Hvisit.
    { unfold normalizeType, mbind, M_bind, bind, readType, lift, writeSchema,
        mret, M_ret, ret. rewrite Hr. simpl.
      destruct (schema type) as [url|] eqn:Hs; simpl.
      - destruct (Hnorm url eq_refl) as [normalized Hn]. rewrite Hn. simpl.
        by rewrite Hr.
      - by rewrite list_insert_id. }
    change (forIn ((name, ref) :: rest) normalizeType)
      with (normalizeType name ref;; forIn rest normalizeType).
    unfold mbind, M_bind, bind. by rewrite Hvisit, IH.
Qed.

(** A whole run on a well-formed definition. *)
Lemma normalizeDefinition_run (heap : Heap) definition d entries
    normalizedProtocol :
  heap !! definition = Some (DefinitionObject d) ->
  heap !! types d = Some (TypesObject entries) ->
  wellFormedTypes entries heap ->
  normalizeProtocolUrl (protocol d) = Fulfilled normalizedProtocol ->
  normalizeDefinition definition heap
  = (Fulfilled (S (length heap)),
     (normalizedHeap entries heap
      ++ [ TypesObject entries;
           DefinitionObject {| protocol := normalizedProtocol;
                               types := length heap;
                               structure := structure d |} ])%list,
     []).
Proof.
  intros Hd Ht Hwf Hproto.
  assert (wellFormedTypes entries (heap ++ [TypesObject entries])) as Hwf0.
  { destruct Hwf as [Hobj Hdistinct]. split; [|done].
    intros name ref Hl. destruct (Hobj name ref Hl) as (type & Hr & Hn).
    exists type. split; [|done]. by apply lookup_app_l_Some. }
  assert (normalizedHeap entries (heap ++ [TypesObject entries])
          = (normalizedHeap entries heap ++ [TypesObject entries])%list)
    as Happ.
  { unfold normalizedHeap. rewrite imap_app. simpl. f_equal.
    by case_bool_decide. }
  pose proof (normalize_loop entries _ Hwf0) as Hloop.
  unfold normalizeDefinition.
  unfold mbind, M_bind, bind, mret, M_ret, ret in *.
  unfold readDefinition, readTypes, alloc. rewrite Hd, Ht, Hloop.
  unfold lift. rewrite Hproto.
  simpl. rewrite Happ, length_app, normalizedHeap_length. simpl.
  rewrite <- (assoc_L (++)). simpl. do 3 f_equal. lia.
Qed.

(** C9, on every well-formed definition. The returned definition is a
    fresh object with the normalised protocol, the caller's structure and
    a fresh types map with the caller's entries; the caller's definition
    object and types map stay as they were; but every type object that
    the caller's types map leads to is shared with the copy and has its
    schema overwritten with the normalised one, so a schema that was not
    yet normalised is changed in the caller's argument. *)
Theorem normalizeDefinition_writes_through_to_the_argument
    (heap : Heap) (definition : nat) (d : ProtocolDefinition)
    (entries : list (string * nat)) (normalizedProtocol : string)
    (typeName : string) (ref : nat) (type : ProtocolType)
    (url normalized : string) :
  heap !! definition = Some (DefinitionObject d) ->
  heap !! types d = Some (TypesObject entries) ->
  wellFormedTypes entries heap ->
  normalizeProtocolUrl (protocol d) = Fulfilled normalizedProtocol ->
  (typeName, ref) ∈ entries ->
  heap !! ref = Some (TypeObject type) ->
  schema type = Some url ->
  normalizeSchemaUrl url = Fulfilled normalized ->
  let result := S (length heap) in
  let heap' := finalState (normalizeDefinition definition heap) in
  outcome (normalizeDefinition definition heap) = Fulfilled result
  /\ heap' !! result
     = Some (DefinitionObject {| protocol := normalizedProtocol;
                                 types := length heap;
                                 structure := structure d |})
  /\ heap' !! length heap = Some (TypesObject entries)
  /\ heap' !! definition = heap !! definition
  /\ heap' !! types d = heap !! types d
  /\ heap' !! ref
     = Some (TypeObject {| schema := Some normalized;
                           dataFormats := dataFormats type |})
  /\ (normalized <> url -> heap' !! ref <> heap !! ref).
Proof.
  intros Hd Ht Hwf Hproto Hname Hr Hs Hnorm result heap'.
  subst heap'.
  rewrite (normalizeDefinition_run heap definition d entries
             normalizedProtocol Hd Ht Hwf Hproto).
  unfold outcome, finalState. simpl.
  assert (normalizedHeap entries heap !! ref
          = Some (TypeObject {| schema := Some normalized;
                                dataFormats := dataFormats type |})) as Hr'.
  { rewrite normalizedHeap_lookup, Hr. simpl.
    rewrite bool_decide_eq_true_2
      by apply (entry_leads_to_its_reference _ typeName), Hname.
    simpl. by rewrite Hs, Hnorm. }
  split_and!.
  - done.
  - rewrite lookup_app_r; rewrite normalizedHeap_length; [|subst result; lia].
    subst result. by replace (S (length heap) - length heap) with 1 by lia.
  - rewrite lookup_app_r; rewrite normalizedHeap_length; [|lia].
    by rewrite Nat.sub_diag.
  - rewrite Hd. apply lookup_app_l_Some.
    apply normalizedHeap_frame; [done|]. by right.
  - rewrite Ht. apply lookup_app_l_Some.
    apply normalizedHeap_frame; [done|]. by right.
  - by apply lookup_app_l_Some.
  - intros Hne. rewrite (lookup_app_l_Some _ _ _ _ Hr'), Hr.
    intros [= Heq]. destruct type as [sch fmt]. simpl in *. congruence.
Qed.

End NormalizeFacts.

Section NormalizeExamples.
Import ProtocolsConfigure.
#[local] Existing Instance httpUrl.

Lemma normalizeDefinition_writes_through_to_the_argument_witness :
  finalState (normalizeDefinition 2 galleryHeap) !! 0
  <> galleryHeap !! 0.
Proof.
  apply (@normalizeDefinition_writes_through_to_the_argument
           httpUrl galleryHeap 2
           {| protocol := "example.com/gallery"; types := 1;
              structure := "{}" |}
           [("photo", 0)] "http://example.com/gallery"
           "photo" 0
           {| schema := Some "example.com/photo"; dataFormats := None |}
           "example.com/photo" "http://example.com/photo");
    try (vm_compute; reflexivity).
  - split.
    + intros name ref [= -> ->]%list_elem_of_singleton.
      eexists. split; [reflexivity|]. intros url [= <-].
      eexists. reflexivity.
    + apply NoDup_singleton.
  - apply list_elem_of_here.
  - discriminate.
Defined.

(** The caller's type object before and after the call. *)
Example gallery_schema_is_overwritten :
  galleryHeap !! 0
  = Some (TypeObject {| schema := Some "example.com/photo";
                        dataFormats := None |})
  /\ finalState (normalizeDefinition 2 galleryHeap) !! 0
     = Some (TypeObject {| schema := Some "http://example.com/photo";
                           dataFormats := None |}).
Proof. split; vm_compute; reflexivity. Qed.

End NormalizeExamples.

(** ** Deriving a private key *)

Section HdKeyFacts.
Import HdKey.
Context {PrivateJwk : Type} `{Secp256k1 PrivateJwk}.

(** Whatever key is returned carries the ancestor's root key id and
    scheme and the extended path. *)
Lemma derivePrivateKey_returned_key ancestorKey subDerivationPath key :
  derivePrivateKey ancestorKey subDerivationPath = Fulfilled key ->
  rootKeyId key = rootKeyId ancestorKey
  /\ derivationScheme key = derivationScheme ancestorKey
  /\ derivationPath key
     = Some (default [] (derivationPath ancestorKey)
             ++ subDerivationPath)%list.
Proof.
  unfold derivePrivateKey, mbind, Completion_bind, mret, Completion_ret.
  destruct (privateJwkToBytes _) as [bytes|]; [|done].
  destruct (secpDerivePrivateKey _ _) as [derived|]; [|done].
  destruct (privateKeyToJwk _) as [jwk|]; [|done].
  by intros [= <-].
Qed.

(** C10. When the three key operations succeed, [derivePrivateKey]
    returns a key with the ancestor's [rootKeyId] and
    [derivationScheme], whose [derivationPath] is the ancestor's path,
    or the empty path when the ancestor has none, followed by
    [subDerivationPath], and whose private key is the derived one. *)
Theorem derivePrivateKey_extends_the_ancestor_path
    (ancestorKey : DerivedPrivateJwk PrivateJwk)
    (subDerivationPath : list string)
    (ancestorPrivateKey derivedPrivateKeyBytes : list Byte.byte)
    (derivedPrivateJwk : PrivateJwk) :
  privateJwkToBytes (derivedPrivateKey ancestorKey)
  = Fulfilled ancestorPrivateKey ->
  secpDerivePrivateKey ancestorPrivateKey subDerivationPath
  = Fulfilled derivedPrivateKeyBytes ->
  privateKeyToJwk derivedPrivateKeyBytes = Fulfilled derivedPrivateJwk ->
  exists key,
    derivePrivateKey ancestorKey subDerivationPath = Fulfilled key
    /\ rootKeyId key = rootKeyId ancestorKey
    /\ derivationScheme key = derivationScheme ancestorKey
    /\ derivationPath key
       = Some (match derivationPath ancestorKey with
               | Some path => path
               | None => []
               end ++ subDerivationPath)%list
    /\ derivedPrivateKey key = derivedPrivateJwk.
Proof.
  intros Hbytes Hderive Hjwk.
  unfold derivePrivateKey, mbind, Completion_bind, mret, Completion_ret.
  rewrite Hbytes, Hderive, Hjwk. eexists. split; [reflexivity|].
  simpl. by destruct (derivationPath ancestorKey).
Qed.

End HdKeyFacts.

Section HdKeyExamples.
Import HdKey.
#[local] Existing Instance appendingKeys.

Lemma derivePrivateKey_extends_the_ancestor_path_witness :
  exists key,
    derivePrivateKey rootKey ["a"; "b"] = Fulfilled key
    /\ rootKeyId key = "root"
    /\ derivationScheme key = Protocols
    /\ derivationPath key = Some ["a"; "b"]
    /\ derivedPrivateKey key = "kab".
Proof.
  apply (@derivePrivateKey_extends_the_ancestor_path
           string appendingKeys rootKey ["a"; "b"]
           (list_byte_of_string "k") (list_byte_of_string "kab") "kab");
    reflexivity.
Defined.

(** Deriving in two steps accumulates the path. *)
Example derive_twice :
  (child ← derivePrivateKey rootKey ["a"]; derivePrivateKey child ["b"])
  = Fulfilled {| rootKeyId := "root"; derivationScheme := Protocols;
                 derivationPath := Some ["a"; "b"];
                 derivedPrivateKey := "kab" |}.
Proof. reflexivity. Qed.

End HdKeyExamples.

(** * Further properties *)

(** ** The delete handler: replies, exceptions and the index row *)

Section DeleteHandlerOutcomes.
Import RecordsWrite RecordsDeleteHandler.
Context `{ContentId} `{Gate} {W : Type} `{Backend W}.

Ltac unfold_handle :=
  unfold handle, mbind, M_bind, bind, attempt, call, reading, updating,
    mret, M_ret, ret, outcome, finalState, calls.

Ltac branch :=
  match goal with
  | |- context [match ?x with _ => _ end] => destruct x eqn:?
  | H : context [match ?x with _ => _ end] |- _ => destruct x eqn:?
  end.

Ltac units :=
  repeat match goal with u : unit |- _ => destruct u end.

(** X1. Whatever the handler replies carries one of the five status codes
    202, 400, 401, 404 and 409. *)
Theorem handle_replies_with_known_codes tenant m w reply :
  outcome (handle tenant m w) = Fulfilled reply ->
  In (code reply) [202; 400; 401; 404; 409].
Proof.
  unfold_handle. unfold fromError.
  repeat (branch; simpl in *; simplify_eq);
    intros Hout; simplify_eq; simpl; tauto.
Qed.

(** X2. The reply is 400 exactly when parsing threw; its detail is then
    the message of the error, nothing but the parser was called and the
    backend state is untouched. *)
Theorem bad_request_iff_parse_throws tenant m w :
  ((exists reply, outcome (handle tenant m w) = Fulfilled reply
                  /\ code reply = 400)
   <-> (exists e, parse m = Thrown e))
  /\ (forall e,
        parse m = Thrown e ->
        handle tenant m w
        = (Fulfilled {| code := 400; detail := e |}, w, [Parse m])).
Proof.
  split; [split|].
  - intros (reply & Hout & Hcode). revert Hout Hcode.
    unfold_handle. unfold fromError.
    repeat (branch; simpl in *; simplify_eq);
      intros Hout Hcode; simplify_eq; simpl in *; try discriminate; eauto.
  - intros (e & Hparse). exists {| code := 400; detail := e |}.
    unfold_handle. unfold fromError. by rewrite Hparse.
  - intros e Hparse. unfold_handle. unfold fromError. by rewrite Hparse.
Qed.

(** X3. The reply is 401 exactly when the message parsed and then either
    the authentication or, after it passed, the authorization threw; the
    detail is that error's message, the backend state is untouched and
    the message store was never queried. *)
Theorem unauthorized_iff_gate_throws tenant m w :
  ((exists reply, outcome (handle tenant m w) = Fulfilled reply
                  /\ code reply = 401)
   <-> (exists rd e,
          parse m = Fulfilled rd
          /\ (authenticate (authorization m) = Thrown e
              \/ (authenticate (authorization m) = Fulfilled tt
                  /\ authorize rd tenant = Thrown e))))
  /\ (forall rd e,
        parse m = Fulfilled rd ->
        authenticate (authorization m) = Thrown e
        \/ (authenticate (authorization m) = Fulfilled tt
            /\ authorize rd tenant = Thrown e) ->
        outcome (handle tenant m w)
        = Fulfilled {| code := 401; detail := e |}
        /\ finalState (handle tenant m w) = w
        /\ Forall (fun c => stage c < 3) (calls (handle tenant m w))).
Proof.
  assert (forall rd e,
            parse m = Fulfilled rd ->
            authenticate (authorization m) = Thrown e
            \/ (authenticate (authorization m) = Fulfilled tt
                /\ authorize rd tenant = Thrown e) ->
            outcome (handle tenant m w)
            = Fulfilled {| code := 401; detail := e |}
            /\ finalState (handle tenant m w) = w
            /\ Forall (fun c => stage c < 3) (calls (handle tenant m w)))
    as Hgate.
  { intros rd e Hparse Hthrown. unfold_handle. unfold fromError.
    rewrite Hparse. simpl.
    destruct Hthrown as [Hauthn|[Hauthn Hauthz]].
    - rewrite Hauthn. simpl. split_and!; [done..|]. repeat constructor.
    - rewrite Hauthn, Hauthz. simpl. split_and!; [done..|].
      repeat constructor. }
  split; [split|exact Hgate].
  - intros (reply & Hout & Hcode). revert Hout Hcode.
    unfold_handle. unfold fromError.
    repeat (branch; simpl in *; simplify_eq);
      intros Hout Hcode; simplify_eq; simpl in *; try discriminate; units;
      eexists _, _; (split; [reflexivity|]); eauto.
  - intros (rd & e & Hparse & Hthrown).
    destruct (Hgate rd e Hparse Hthrown) as (Hout & _).
    by exists {| code := 401; detail := e |}.
Qed.

(** X4. The reply is 202 exactly when the message parsed and was
    authorized, some existing message was found that is not a delete and
    that the incoming message outranks, and the put, the append and the
    pruning each returned; the state after the run is the one the pruning
    left. *)
Theorem accepted_iff_every_stage_passes tenant m w :
  outcome (handle tenant m w)
  = Fulfilled {| code := 202; detail := "Accepted" |}
  <-> (exists rd existing n w1 w2 w3,
         parse m = Fulfilled rd
         /\ authenticate (authorization m) = Fulfilled tt
         /\ authorize rd tenant = Fulfilled tt
         /\ messageStore_query tenant (recordsQuery m) w = Fulfilled existing
         /\ getNewestMessage existing = Some n
         /\ isNewer m n = true
         /\ method (descriptor n) <> Some (methodName Delete)
         /\ messageStore_put tenant m (constructIndexes tenant rd) w
            = (Fulfilled tt, w1)
         /\ eventLog_append tenant (getCid m) w1 = (Fulfilled tt, w2)
         /\ deleteAllOlderMessagesButKeepInitialWrite tenant existing m w2
            = (Fulfilled tt, w3)
         /\ finalState (handle tenant m w) = w3).
Proof.
  split.
  - unfold_handle. unfold fromError, resolveNewest, missingOrDeleted.
    repeat (branch; simpl in *; simplify_eq);
      intros Hout; simplify_eq; units;
      eexists _, _, _, _, _, _; split_and!; eauto.
    by match goal with
       | E : bool_decide _ = false |- _ => apply bool_decide_eq_false in E
       end.
  - intros (rd & existing & n & w1 & w2 & w3 & Hp & Ha & Hz & Hq & Hn
            & Hnew & Hdel & Hput & Happ & Hprune & _).
    unfold_handle. unfold resolveNewest, missingOrDeleted.
    rewrite Hp, Ha, Hz, Hq, Hn. simpl. rewrite Hnew. simpl.
    rewrite bool_decide_eq_false_2 by done.
    by rewrite Hput, Happ, Hprune.
Qed.

(** X5. The handler throws only what the storage layer threw: parsing and
    authorization had passed, and the error is that of the query, the
    put, the append or the pruning. Nothing is rolled back: the state is
    the one the failing call left, so after a failed append the message
    is stored but not logged, and the older messages are not pruned. *)
Theorem handle_throws_only_storage_errors tenant m w e :
  outcome (handle tenant m w) = Thrown e ->
  let final := finalState (handle tenant m w) in
  exists rd,
    parse m = Fulfilled rd
    /\ authenticate (authorization m) = Fulfilled tt
    /\ authorize rd tenant = Fulfilled tt
    /\ ((messageStore_query tenant (recordsQuery m) w = Thrown e
         /\ final = w
         /\ calls (handle tenant m w) = readCalls tenant m rd)
        \/ (exists existing,
              messageStore_query tenant (recordsQuery m) w
              = Fulfilled existing
              /\ messageStore_put tenant m (constructIndexes tenant rd) w
                 = (Thrown e, final)
              /\ calls (handle tenant m w)
                 = (readCalls tenant m rd
                    ++ [StorePut tenant m (constructIndexes tenant rd)])%list)
        \/ (exists existing w1,
              messageStore_query tenant (recordsQuery m) w
              = Fulfilled existing
              /\ messageStore_put tenant m (constructIndexes tenant rd) w
                 = (Fulfilled tt, w1)
              /\ eventLog_append tenant (getCid m) w1 = (Thrown e, final)
              /\ calls (handle tenant m w)
                 = (readCalls tenant m rd
                    ++ [StorePut tenant m (constructIndexes tenant rd);
                        LogAppend tenant (getCid m)])%list)
        \/ (exists existing w1 w2,
              messageStore_query tenant (recordsQuery m) w
              = Fulfilled existing
              /\ messageStore_put tenant m (constructIndexes tenant rd) w
                 = (Fulfilled tt, w1)
              /\ eventLog_append tenant (getCid m) w1 = (Fulfilled tt, w2)
              /\ deleteAllOlderMessagesButKeepInitialWrite
                   tenant existing m w2 = (Thrown e, final)
              /\ calls (handle tenant m w)
                 = admissionCalls tenant m rd existing)).
Proof.
  unfold_handle. unfold fromError, resolveNewest, admissionCalls, readCalls.
  repeat (branch; simpl in *; simplify_eq);
    intros Hout; simplify_eq; units;
    eexists; (split; [reflexivity|]); (split; [eauto|]); (split; [eauto|]).
  all: first
    [ left; by split_and!
    | right; left; eexists; by split_and!
    | right; right; left; eexists _, _; by split_and!
    | right; right; right; eexists _, _, _; by split_and! ].
Qed.

(** X6. For deletes whose descriptors have no property named [author],
    the index row tells the author and the descriptor apart: two such
    parsed deletes have the same row exactly when they have the same
    author and the same descriptor, whatever the tenants. The tenant is
    not part of the row. *)
Theorem delete_indexes_determine_author_and_descriptor
    tenant1 tenant2 (rd1 rd2 : RecordsDelete) :
  properties (descriptor (message rd1)) !! "author" = None ->
  properties (descriptor (message rd2)) !! "author" = None ->
  constructIndexes tenant1 rd1 = constructIndexes tenant2 rd2
  <-> author rd1 = author rd2
      /\ descriptor (message rd1) = descriptor (message rd2).
Proof.
  intros Hauthor1 Hauthor2. split.
  - intros Heq.
    assert (forall key, constructIndexes tenant1 rd1 !! key
                        = constructIndexes tenant2 rd2 !! key) as Hkey
      by (intros key; by rewrite Heq).
    split.
    + specialize (Hkey "author").
      rewrite !constructIndexes_lookup, Hauthor1, Hauthor2 in Hkey.
      simpl in Hkey. congruence.
    + assert (properties (descriptor (message rd1))
              = properties (descriptor (message rd2))) as Hproperties.
      { apply map_eq. intros key.
        destruct (decide (key = "author")) as [->|Hne]; [congruence|].
        specialize (Hkey key). rewrite !constructIndexes_lookup in Hkey.
        destruct (properties (descriptor (message rd1)) !! key),
                 (properties (descriptor (message rd2)) !! key),
                 (decide (key = "author"));
          congruence. }
      destruct (descriptor (message rd1)), (descriptor (message rd2)).
      simpl in *. congruence.
  - intros [Ha Hd]. unfold constructIndexes. by rewrite Ha, Hd.
Qed.

(** X7. In every run, also one that ends in a rejection or an
    exception, the calls are the first stages of the pipeline parse,
    authenticate, authorize, query, put, append, prune, in this order and
    each at most once. *)
Theorem handle_calls_keep_the_pipeline_order tenant m w :
  map stage (calls (handle tenant m w))
  = seq 0 (length (calls (handle tenant m w)))
  /\ length (calls (handle tenant m w)) <= 7
  /\ List.NoDup (calls (handle tenant m w)).
Proof.
  assert (map stage (calls (handle tenant m w))
          = seq 0 (length (calls (handle tenant m w)))) as Hstages
    by apply handle_calls_follow_the_stages.
  split; [done|]. split.
  - unfold_handle.
    repeat (branch; simpl in *; simplify_eq);
      rewrite ?length_app; simpl; lia.
  - apply (List.NoDup_map_inv stage). rewrite Hstages.
    apply List.seq_NoDup.
Qed.

(** X8. The event log is appended to only after the put of the incoming
    message returned, and older messages are pruned only after both the
    put and the append returned; this holds also for a run in which a
    later call throws. *)
Theorem log_and_prune_wait_for_the_put tenant m w c :
  In c (calls (handle tenant m w)) -> 5 <= stage c ->
  exists rd existing w1,
    parse m = Fulfilled rd
    /\ messageStore_query tenant (recordsQuery m) w = Fulfilled existing
    /\ messageStore_put tenant m (constructIndexes tenant rd) w
       = (Fulfilled tt, w1)
    /\ (c = LogAppend tenant (getCid m)
        \/ c = Prune tenant existing m
           /\ exists w2,
                eventLog_append tenant (getCid m) w1 = (Fulfilled tt, w2)).
Proof.
  unfold_handle. unfold resolveNewest.
  repeat (branch; simpl in *; simplify_eq);
    intros Hin Hstage;
    repeat (destruct Hin as [<-|Hin]; [simpl in Hstage; try lia|]);
    try done; units;
    eexists _, _, _;
    (split; [reflexivity || eassumption|]);
    (split; [reflexivity || eassumption|]);
    (split; [reflexivity || eassumption|]); eauto 6.
Qed.

End DeleteHandlerOutcomes.

Section DeleteHandlerOutcomeExamples.
Import RecordsWrite RecordsDeleteHandler.
#[local] Existing Instance signatureCid.
#[local] Existing Instance ownerGate.

Lemma handle_replies_with_known_codes_witness :
  In 409 [202; 400; 401; 404; 409].
Proof.
  apply (@handle_replies_with_known_codes
           signatureCid ownerGate Store memory alice delete1 deleted
           {| code := 409; detail := "Conflict" |}).
  vm_compute; reflexivity.
Defined.

Lemma delete_indexes_determine_author_and_descriptor_witness :
  constructIndexes alice (parsed delete1)
  = constructIndexes "did:example:bob" (parsed delete2)
  <-> author (parsed delete1) = author (parsed delete2)
      /\ descriptor delete1 = descriptor delete2.
Proof.
  apply (delete_indexes_determine_author_and_descriptor
           alice "did:example:bob" (parsed delete1) (parsed delete2));
    vm_compute; reflexivity.
Defined.

Lemma handle_throws_only_storage_errors_witness :
  exists rd,
    parse delete2 = Fulfilled rd
    /\ outcome (@handle signatureCid ownerGate Store brokenLog
                  alice delete2 written)
       = Thrown "event log unavailable"
    /\ map (fun row => row.1.2)
           (rows (finalState (@handle signatureCid ownerGate Store brokenLog
                                alice delete2 written)))
       = [write1; delete2]
    /\ events (finalState (@handle signatureCid ownerGate Store brokenLog
                             alice delete2 written))
       = [(alice, "w1")].
Proof.
  destruct (@handle_throws_only_storage_errors
              signatureCid ownerGate Store brokenLog alice delete2 written
              "event log unavailable") as (rd & Hp & _);
    [vm_compute; reflexivity|].
  exists rd. split; [exact Hp|]. split_and!; vm_compute; reflexivity.
Defined.

Lemma log_and_prune_wait_for_the_put_witness :
  exists rd existing w1,
    parse delete2 = Fulfilled rd
    /\ @messageStore_query _ memory alice (recordsQuery delete2) written
       = Fulfilled existing
    /\ @messageStore_put _ memory alice delete2 (constructIndexes alice rd)
         written
       = (Fulfilled tt, w1)
    /\ (Prune alice [write1] delete2 = LogAppend alice (getCid delete2)
        \/ Prune alice [write1] delete2 = Prune alice existing delete2
           /\ exists w2,
                @eventLog_append _ memory alice (getCid delete2) w1
                = (Fulfilled tt, w2)).
Proof.
  apply (@log_and_prune_wait_for_the_put
           signatureCid ownerGate Store memory alice delete2 written
           (Prune alice [write1] delete2)).
  - vm_compute. do 6 right. left. reflexivity.
  - simpl. lia.
Defined.

(** A message without authorization is turned away by the parser. *)
Example unsigned_delete_is_bad_request :
  @handle signatureCid ownerGate Store memory alice
    (records Delete "r1" "2023-01-02T00:00:00.000000Z" "") written
  = (Fulfilled {| code := 400; detail := "authorization missing" |}, written,
     [Parse (records Delete "r1" "2023-01-02T00:00:00.000000Z" "")]).
Proof. vm_compute; reflexivity. Qed.

(** Another tenant's node does not let [alice] delete. *)
Example foreign_delete_is_unauthorized :
  outcome (@handle signatureCid ownerGate Store memory "did:example:bob"
             delete2 written)
  = Fulfilled {| code := 401; detail := "not the owner of the record" |}.
Proof. vm_compute; reflexivity. Qed.

End DeleteHandlerOutcomeExamples.

(** ** The node: what the checks let through and where it goes *)

Section DwnRoutingFacts.
Import Dwn DwnRouting.
Context `{TenantGate} {W : Type} `{Collaborators W}.

#[local] Opaque methodHandlers.

Ltac unfold_entry :=
  unfold enter, processMessage, handleRecordsRead, handleMessagesGet,
    synchronizePrunedInitialRecordsWrite, dispatch, mbind, M_bind, bind,
    updating, throw, mret, M_ret, ret.

Ltac unfold_preflight :=
  unfold preprocessingChecks, mbind, M_bind, bind, attempt, call,
    mret, M_ret, ret.

(** The run of checks that all pass. *)
Lemma checks_pass_run tenant rawMessage ei em w received :
  isTenant tenant = Fulfilled true ->
  dwnInterfaceOf rawMessage = Some received.1 ->
  dwnMethodOf rawMessage = Some received.2 ->
  mismatch interfaceName ei received.1 = false ->
  mismatch methodName em received.2 = false ->
  validateJsonSchema rawMessage = Fulfilled tt ->
  preprocessingChecks tenant rawMessage ei em w
  = (Fulfilled None, w, [IsTenant tenant; ValidateJsonSchema rawMessage]).
Proof.
  destruct received as [ri rm]. simpl. intros Ht Hi Hm Hei Hem Hv.
  unfold_preflight. by rewrite Ht, Hi, Hm, Hei, Hem, Hv.
Qed.

(** The checks themselves throw only what the tenant gate threw. *)
Lemma checks_throw_only_gate_errors tenant rawMessage ei em w err :
  outcome (preprocessingChecks tenant rawMessage ei em w) = Thrown err ->
  isTenant tenant = Thrown err
  /\ preprocessingChecks tenant rawMessage ei em w
     = (Thrown err, w, [IsTenant tenant]).
Proof.
  unfold_preflight. unfold outcome.
  destruct (isTenant tenant) as [[]|err']; simpl.
  - destruct (dwnInterfaceOf rawMessage) as [ri|]; simpl; [|done].
    destruct (dwnMethodOf rawMessage) as [rm|]; simpl; [|done].
    destruct (mismatch interfaceName ei ri); [done|].
    destruct (mismatch methodName em rm); [done|].
    by destruct (validateJsonSchema rawMessage).
  - done.
  - by intros [= ->].
Qed.

(** X9. The checks let a message through exactly when the tenant is
    served, interface and method are present and do not differ from the
    expected ones, and the schema validation passes. *)
Theorem checks_pass_iff tenant rawMessage ei em w :
  outcome (preprocessingChecks tenant rawMessage ei em w) = Fulfilled None
  <-> isTenant tenant = Fulfilled true
      /\ (exists received,
            dwnInterfaceOf rawMessage = Some received.1
            /\ dwnMethodOf rawMessage = Some received.2
            /\ mismatch interfaceName ei received.1 = false
            /\ mismatch methodName em received.2 = false)
      /\ validateJsonSchema rawMessage = Fulfilled tt.
Proof.
  split.
  - intros Hout.
    destruct (preprocessingChecks_outcome tenant rawMessage ei em w)
      as (r & t & Heq & _ & Hpass).
    rewrite Heq in Hout. unfold outcome in Hout. simpl in Hout. auto.
  - intros (Ht & (received & Hi & Hm & Hei & Hem) & Hv).
    by rewrite (checks_pass_run _ _ _ _ _ received).
Qed.

(** X10. When the schema validation throws for a message that got that
    far, each entry point answers 400 with the message of the error,
    without calling a handler. *)
Theorem schema_failure_is_bad_request e tenant rawMessage w received err :
  isTenant tenant = Fulfilled true ->
  dwnInterfaceOf rawMessage = Some received.1 ->
  dwnMethodOf rawMessage = Some received.2 ->
  mismatch interfaceName (expectedInterface e) received.1 = false ->
  mismatch methodName (expectedMethod e) received.2 = false ->
  validateJsonSchema rawMessage = Thrown err ->
  enter e tenant rawMessage w
  = (Fulfilled {| code := 400; detail := err |}, w,
     [IsTenant tenant; ValidateJsonSchema rawMessage]).
Proof.
  destruct received as [ri rm]. simpl. intros Ht Hi Hm Hei Hem Hv.
  assert (preprocessingChecks tenant rawMessage
            (expectedInterface e) (expectedMethod e) w
          = (Fulfilled (Some {| code := 400; detail := err |}), w,
             [IsTenant tenant; ValidateJsonSchema rawMessage])) as Hrun.
  { unfold_preflight. by rewrite Ht, Hi, Hm, Hei, Hem, Hv. }
  destruct e; simpl in Hrun; unfold_entry; by rewrite Hrun.
Qed.

(** X11. [processMessage] picks the handler by the string that interface
    and method make when put together: a message that passes the checks
    and whose string is registered is handed, with the data stream, to
    that handler, once, and the handler's reply and state are the
    result. *)
Theorem processMessage_routes_by_concatenation
    tenant rawMessage dataStream w received handler :
  isTenant tenant = Fulfilled true ->
  dwnInterfaceOf rawMessage = Some received.1 ->
  dwnMethodOf rawMessage = Some received.2 ->
  validateJsonSchema rawMessage = Fulfilled tt ->
  methodHandlers !! (received.1 ++ received.2) = Some handler ->
  processMessage tenant rawMessage dataStream w
  = ((handlerHandle handler tenant rawMessage (DataStream dataStream) w).1,
     (handlerHandle handler tenant rawMessage (DataStream dataStream) w).2,
     [ IsTenant tenant; ValidateJsonSchema rawMessage;
       Handle handler tenant rawMessage (DataStream dataStream) ]).
Proof.
  intros Ht Hi Hm Hv Hkey.
  pose proof (checks_pass_run tenant rawMessage None None w received
                Ht Hi Hm eq_refl eq_refl Hv) as Hrun.
  unfold_entry. rewrite Hrun, Hi, Hm, Hkey.
  by destruct (handlerHandle _ _ _ _ _).
Qed.

(** X12. A message that passes the checks but whose interface and method
    make no registered string gets no reply: [processMessage] throws, no
    handler was called and the state is untouched. *)
Theorem processMessage_throws_on_unregistered_pair
    tenant rawMessage dataStream w received :
  isTenant tenant = Fulfilled true ->
  dwnInterfaceOf rawMessage = Some received.1 ->
  dwnMethodOf rawMessage = Some received.2 ->
  validateJsonSchema rawMessage = Fulfilled tt ->
  methodHandlers !! (received.1 ++ received.2) = None ->
  exists err,
    processMessage tenant rawMessage dataStream w
    = (Thrown err, w, [IsTenant tenant; ValidateJsonSchema rawMessage]).
Proof.
  intros Ht Hi Hm Hv Hkey.
  pose proof (checks_pass_run tenant rawMessage None None w received
                Ht Hi Hm eq_refl eq_refl Hv) as Hrun.
  unfold_entry. rewrite Hrun, Hi, Hm, Hkey. eauto.
Qed.

Lemma mismatch_false_Some {A} (name : A -> string) e received :
  mismatch name (Some e) received = false -> name e = received.
Proof.
  unfold mismatch. rewrite negb_false_iff. apply String.eqb_eq.
Qed.

(** X13. A bound entry point hands a message that passes its checks to
    its own handler, with its own input, and returns that handler's reply
    and state; the message then names exactly the interface and method
    the entry point is bound to. *)
Theorem bound_entry_point_calls_its_handler
    e handler tenant rawMessage w received :
  boundHandler e = Some handler ->
  isTenant tenant = Fulfilled true ->
  dwnInterfaceOf rawMessage = Some received.1 ->
  dwnMethodOf rawMessage = Some received.2 ->
  mismatch interfaceName (expectedInterface e) received.1 = false ->
  mismatch methodName (expectedMethod e) received.2 = false ->
  validateJsonSchema rawMessage = Fulfilled tt ->
  enter e tenant rawMessage w
  = ((handlerHandle handler tenant rawMessage (boundInput e) w).1,
     (handlerHandle handler tenant rawMessage (boundInput e) w).2,
     [ IsTenant tenant; ValidateJsonSchema rawMessage;
       Handle handler tenant rawMessage (boundInput e) ])
  /\ Some received.1 = interfaceName <$> expectedInterface e
  /\ Some received.2 = methodName <$> expectedMethod e.
Proof.
  intros Hb Ht Hi Hm Hei Hem Hv.
  pose proof (checks_pass_run tenant rawMessage _ _ w received
                Ht Hi Hm Hei Hem Hv) as Hrun.
  destruct e; cbn [boundHandler expectedInterface expectedMethod boundInput]
                in *; simplify_eq;
    apply mismatch_false_Some in Hei, Hem; rewrite <- Hei, <- Hem;
    (split; [|done]); unfold_entry; rewrite Hrun;
    by destruct (handlerHandle _ _ _ _ _).
Qed.

(** X14. An entry point throws only what the tenant gate or the called
    handler threw, or, in [processMessage], because no handler is
    registered for the message; an error of the schema validation never
    gets out as an exception. *)
Theorem entry_points_throw_only_gate_or_handler_errors
    e tenant rawMessage w err :
  outcome (enter e tenant rawMessage w) = Thrown err ->
  isTenant tenant = Thrown err
  \/ (exists handler input,
        In (Handle handler tenant rawMessage input)
           (calls (enter e tenant rawMessage w))
        /\ (handlerHandle handler tenant rawMessage input w).1 = Thrown err)
  \/ (exists dataStream received,
        e = ProcessMessage dataStream
        /\ dwnInterfaceOf rawMessage = Some received.1
        /\ dwnMethodOf rawMessage = Some received.2
        /\ methodHandlers !! (received.1 ++ received.2) = None).
Proof.
  intros Hout.
  destruct (preprocessingChecks_outcome tenant rawMessage
              (expectedInterface e) (expectedMethod e) w)
    as (r & t & Heq & _ & Hpass).
  destruct r as [[reply|]|err'].
  - exfalso. revert Hout. destruct e; simpl in Heq; unfold outcome;
      unfold_entry; by rewrite Heq.
  - destruct Hpass as (Ht & (received & Hi & Hm & Hei & Hem) & Hv); [done|].
    rewrite (checks_pass_run _ _ _ _ _ received Ht Hi Hm Hei Hem Hv) in Heq.
    injection Heq as <-.
    pose proof (checks_pass_run tenant rawMessage _ _ w received
                  Ht Hi Hm Hei Hem Hv) as Hrun.
    revert Hout. destruct e; simpl in Hrun; unfold outcome, calls;
      unfold_entry; rewrite Hrun; rewrite ?Hi, ?Hm.
    + destruct (methodHandlers !! _) as [handler|] eqn:Hkey.
      * destruct (handlerHandle handler _ _ _ _) as [res w'] eqn:Hh.
        simpl. intros ->. right. left. eexists _, _.
        split; [simpl; eauto|]. by rewrite Hh.
      * intros _. right. right. by eexists _, received.
    + destruct (handlerHandle _ _ _ _ _) as [res w'] eqn:Hh.
      simpl. intros ->. right. left. eexists _, _.
      split; [simpl; eauto|]. by rewrite Hh.
    + destruct (handlerHandle _ _ _ _ _) as [res w'] eqn:Hh.
      simpl. intros ->. right. left. eexists _, _.
      split; [simpl; eauto|]. by rewrite Hh.
    + destruct (handlerHandle _ _ _ _ _) as [res w'] eqn:Hh.
      simpl. intros ->. right. left. eexists _, _.
      split; [simpl; eauto|]. by rewrite Hh.
  - left.
    assert (enter e tenant rawMessage w = (Thrown err', w, t)) as Hrun.
    { destruct e; simpl in Heq; unfold_entry; by rewrite Heq. }
    rewrite Hrun in Hout. unfold outcome in Hout. simpl in Hout.
    injection Hout as ->.
    apply (checks_throw_only_gate_errors tenant rawMessage
             (expectedInterface e) (expectedMethod e) w).
    by rewrite Heq.
Qed.

End DwnRoutingFacts.

Section DwnRoutingExamples.
Import Dwn DwnRouting.
#[local] Existing Instance onlyAlice.
#[local] Existing Instance counting.

Lemma schema_failure_is_bad_request_witness :
  handleRecordsRead alice (raw (Some "Records") (Some "Read") "malformed") 0
  = (Fulfilled {| code := 400; detail := "schema validation failed" |}, 0,
     [ IsTenant alice;
       ValidateJsonSchema (raw (Some "Records") (Some "Read") "malformed") ]).
Proof.
  apply (@schema_failure_is_bad_request onlyAlice nat counting
           HandleRecordsRead alice
           (raw (Some "Records") (Some "Read") "malformed") 0
           ("Records", "Read") "schema validation failed");
    reflexivity.
Defined.

Lemma processMessage_routes_by_concatenation_witness :
  processMessage alice (raw (Some "RecordsDel") (Some "ete") "{}") None 0
  = (Fulfilled {| code := 200; detail := "OK" |}, 1,
     [ IsTenant alice;
       ValidateJsonSchema (raw (Some "RecordsDel") (Some "ete") "{}");
       Handle RecordsDeleteHandler alice
              (raw (Some "RecordsDel") (Some "ete") "{}")
              (DataStream None) ]).
Proof.
  apply (@processMessage_routes_by_concatenation onlyAlice nat counting
           alice (raw (Some "RecordsDel") (Some "ete") "{}") None 0
           ("RecordsDel", "ete") RecordsDeleteHandler);
    vm_compute; reflexivity.
Defined.

Lemma processMessage_throws_on_unregistered_pair_witness :
  exists err,
    processMessage alice (raw (Some "Records") (Some "Configure") "{}")
                   None 0
    = (Thrown err, 0,
       [ IsTenant alice;
         ValidateJsonSchema (raw (Some "Records") (Some "Configure") "{}") ]).
Proof.
  apply (@processMessage_throws_on_unregistered_pair onlyAlice nat counting
           alice (raw (Some "Records") (Some "Configure") "{}") None 0
           ("Records", "Configure"));
    vm_compute; reflexivity.
Defined.

Lemma bound_entry_point_calls_its_handler_witness :
  synchronizePrunedInitialRecordsWrite
    alice (raw (Some "Records") (Some "Write") "{}") 0
  = (Fulfilled {| code := 200; detail := "OK" |}, 1,
     [ IsTenant alice;
       ValidateJsonSchema (raw (Some "Records") (Some "Write") "{}");
       Handle RecordsWriteHandler alice
              (raw (Some "Records") (Some "Write") "{}") (Options true) ])
  /\ Some "Records" = Some "Records" /\ Some "Write" = Some "Write".
Proof.
  apply (@bound_entry_point_calls_its_handler onlyAlice nat counting
           SynchronizePrunedInitialRecordsWrite RecordsWriteHandler alice
           (raw (Some "Records") (Some "Write") "{}") 0
           ("Records", "Write"));
    reflexivity.
Defined.

Lemma entry_points_throw_only_gate_or_handler_errors_witness :
  exists dataStream received,
    ProcessMessage None = ProcessMessage dataStream
    /\ dwnInterfaceOf (raw (Some "Records") (Some "Configure") "{}")
       = Some received.1
    /\ dwnMethodOf (raw (Some "Records") (Some "Configure") "{}")
       = Some received.2
    /\ methodHandlers !! (received.1 ++ received.2) = None.
Proof.
  destruct (@entry_points_throw_only_gate_or_handler_errors
              onlyAlice nat counting (ProcessMessage None) alice
              (raw (Some "Records") (Some "Configure") "{}") 0
              "TypeError: Cannot read properties of undefined")
    as [Hgate|[(handler & input & Hin & _)|Hkey]].
  - vm_compute; reflexivity.
  - discriminate Hgate.
  - exfalso. vm_compute in Hin.
    destruct Hin as [Hin|[Hin|Hin]]; [discriminate..|done].
  - exact Hkey.
Defined.

End DwnRoutingExamples.

(** ** Protocol definitions: validating, parsing and creating *)

Section ConfigureMessageFacts.
Import ProtocolsConfigure ProtocolsConfigureMessage.
Context `{Url} `{UrlValidation} {PC : Type} `{MessageBase PC}.

(** The loop over the type names reads only, and comes through exactly
    when every schema it finds is accepted. *)
Lemma validate_loop (entries : list (string * nat)) (heap : Heap) :
  typesPresent entries heap ->
  exists r,
    forIn entries validateType heap = (r, heap, [])
    /\ (r = Fulfilled tt <-> schemasNormalized entries heap).
Proof.
  induction entries as [|[name ref] rest IH]; intros Hpresent.
  - exists (Fulfilled tt). split; [done|]. split; [|done].
    intros _ typeName ref type url Hin. by apply elem_of_nil in Hin.
  - destruct IH as (r & Hrun & Hiff).
    { intros name' ref' Hin. apply (Hpresent name'). by right. }
    destruct (Hpresent name ref) as [type Hr]; [by left|].
    assert (schemasNormalized ((name, ref) :: rest) heap
            <-> (forall url, schema type = Some url ->
                             validateSchemaUrlNormalized url = Fulfilled tt)
                /\ schemasNormalized rest heap)
      as Hsplit.
    { split.
      - intros Hall. split.
        + intros url Hs. apply (Hall name ref type url); [by left|done..].
        + intros name' ref' type' url Hin. apply (Hall name'). by right.
      - intros [Hfirst Hrest] name' ref' type' url Hin Hr' Hs.
        apply elem_of_cons in Hin as [[= -> ->]|Hin].
        + rewrite Hr in Hr'. injection Hr' as <-. by apply Hfirst.
        + eapply Hrest; eauto. }
    assert (validateType name ref heap
            = (match schema type with
               | Some url => validateSchemaUrlNormalized url
               | None => Fulfilled tt
               end, heap, [])) as Hvisit.
    { unfold validateType, mbind, M_bind, bind, readType, lift, mret, M_ret,
        ret. rewrite Hr. simpl. by destruct (schema type). }
    change (forIn ((name, ref) :: rest) validateType)
      with (validateType name ref;; forIn rest validateType).
    unfold mbind, M_bind, bind. rewrite Hvisit.
    destruct (schema type) as [url|] eqn:Hs.
    + destruct (validateSchemaUrlNormalized url) as [[]|e] eqn:Hv.
      * rewrite Hrun. simpl. exists r. split; [done|].
        rewrite Hsplit, Hiff. split; [|tauto].
        intros Hrest. split; [|done]. by intros url' [= <-].
      * exists (Thrown e). split; [done|]. rewrite Hsplit.
        split; [done|]. intros [Hfirst _].
        specialize (Hfirst url eq_refl). congruence.
    + rewrite Hrun. simpl. exists r. split; [done|].
      rewrite Hsplit, Hiff. split; [|tauto]. intros Hrest. by split.
Qed.

(** The outcome of the validation of a well-formed definition. *)
Lemma validation_outcome
    (heap : Heap) definition d entries :
  heap !! definition = Some (DefinitionObject d) ->
  heap !! types d = Some (TypesObject entries) ->
  typesPresent entries heap ->
  finalState (validateDefinitionNormalized definition heap) = heap
  /\ (outcome (validateDefinitionNormalized definition heap) = Fulfilled tt
      <-> validateProtocolUrlNormalized (protocol d) = Fulfilled tt
          /\ schemasNormalized entries heap).
Proof.
  intros Hd Ht Hpresent.
  destruct (validate_loop entries heap Hpresent) as (r & Hloop & Hiff).
  unfold validateDefinitionNormalized.
  unfold mbind, M_bind, bind, mret, M_ret, ret in *.
  unfold readDefinition, readTypes, lift, outcome, finalState.
  rewrite Hd. simpl.
  destruct (validateProtocolUrlNormalized (protocol d)) as [[]|e]; simpl.
  - rewrite Ht, Hloop. simpl. split; [done|]. rewrite Hiff. tauto.
  - split; [done|]. split; [done|]. by intros [? _].
Qed.

(** X15. On a definition whose type names lead to type objects,
    [validateDefinitionNormalized] comes through exactly when the
    protocol URL and every schema URL of a type are accepted as
    normalised; a type without schema passes; and the heap is the same
    afterwards. *)
Theorem validateDefinitionNormalized_accepts_iff
    (heap : Heap) definition d entries :
  heap !! definition = Some (DefinitionObject d) ->
  heap !! types d = Some (TypesObject entries) ->
  typesPresent entries heap ->
  finalState (validateDefinitionNormalized definition heap) = heap
  /\ (outcome (validateDefinitionNormalized definition heap) = Fulfilled tt
      <-> validateProtocolUrlNormalized (protocol d) = Fulfilled tt
          /\ schemasNormalized entries heap).
Proof. apply validation_outcome. Qed.

(** Validation never writes, whatever the heap holds. *)
Lemma validateDefinitionNormalized_reads_only definition (heap : Heap) :
  exists r, validateDefinitionNormalized definition heap = (r, heap, []).
Proof.
  assert (forall entries (heap : Heap),
            exists r, forIn entries validateType heap = (r, heap, []))
    as Hloop.
  { intros entries heap'.
    induction entries as [|[name ref] rest [r Hrest]].
    - by exists (Fulfilled tt).
    - assert (exists r0, validateType name ref heap' = (r0, heap', []))
        as [r0 Hvisit].
      { unfold validateType, mbind, M_bind, bind, readType, lift, mret,
          M_ret, ret.
        destruct (heap' !! ref) as [[type| |]|]; simpl; eauto.
        destruct (schema type); simpl; eauto. }
      change (forIn ((name, ref) :: rest) validateType)
        with (validateType name ref;; forIn rest validateType).
      unfold mbind, M_bind, bind. rewrite Hvisit.
      destruct r0 as [[]|e]; [|eauto]. rewrite Hrest. simpl. eauto. }
  unfold validateDefinitionNormalized.
  unfold mbind, M_bind, bind, mret, M_ret, ret in *.
  unfold readDefinition, readTypes, lift.
  destruct (heap !! definition) as [[| |d]|]; simpl; eauto.
  destruct (validateProtocolUrlNormalized (protocol d)) as [[]|e]; simpl;
    eauto.
  destruct (heap !! types d) as [[|entries|]|]; simpl; eauto.
  destruct (Hloop entries heap) as [r ->]. simpl. eauto.
Qed.

(** X16. [parse] gives a message object exactly when the integrity check
    of the authorization passes, the protocol URL and every schema URL
    are accepted as normalised, and the constructor returns; it never
    writes to the objects of the message. *)
Theorem parse_accepts_iff (heap : Heap) message d entries pc :
  heap !! descriptorDefinition (messageDescriptor message)
  = Some (DefinitionObject d) ->
  heap !! types d = Some (TypesObject entries) ->
  typesPresent entries heap ->
  finalState (parse message heap) = heap
  /\ (outcome (parse message heap) = Fulfilled pc
      <-> validateAuthorizationIntegrity message heap = Fulfilled tt
          /\ validateProtocolUrlNormalized (protocol d) = Fulfilled tt
          /\ schemasNormalized entries heap
          /\ newProtocolsConfigure message heap = Fulfilled pc).
Proof.
  intros Hd Ht Hpresent.
  destruct (validation_outcome heap _ d entries
              Hd Ht Hpresent) as [_ Hiff].
  destruct (validateDefinitionNormalized_reads_only
              (descriptorDefinition (messageDescriptor message)) heap)
    as [r Hrun].
  rewrite Hrun in Hiff. unfold outcome in Hiff. simpl in Hiff.
  unfold parse, mbind, M_bind, bind, inspect, outcome, finalState.
  destruct (validateAuthorizationIntegrity message heap) as [[]|e]; simpl.
  - rewrite Hrun. destruct r as [[]|e]; simpl.
    + split; [done|]. split.
      * intros Hpc. destruct Hiff as [Hiff _].
        destruct Hiff as [Hp Hs]; [done|].
        split_and!; assumption || reflexivity.
      * by intros (_ & _ & _ & ->).
    + split; [done|]. split; [done|]. intros (_ & Hp & Hs & _).
      destruct Hiff as [_ Hiff]. discriminate Hiff. split; assumption.
  - split; [done|]. split; [done|]. by intros [? _].
Qed.

(** What the loop of [normalizeDefinition] leaves of a heap whose
    schemas the normaliser does not change. *)
Lemma normalizedHeap_of_normalized entries (heap : Heap) :
  (forall typeName ref type url,
     (typeName, ref) ∈ entries ->
     heap !! ref = Some (TypeObject type) ->
     schema type = Some url ->
     normalizeSchemaUrl url = Fulfilled url) ->
  normalizedHeap entries heap = heap.
Proof.
  intros Hfixed. apply list_eq. intros ref.
  rewrite normalizedHeap_lookup.
  destruct (heap !! ref) as [o|] eqn:Hr; [|done]. simpl. f_equal.
  case_bool_decide as Hin; [|done].
  apply list_elem_of_fmap in Hin as ([typeName ref'] & -> & Hl).
  simpl in *.
  destruct o as [[url' formats]| |]; [|done..]. simpl.
  destruct url' as [url|]; [|done].
  by rewrite (Hfixed typeName ref' _ url Hl Hr eq_refl).
Qed.

(** X17. [create] normalises the caller's definition first and then signs
    and checks a descriptor with interface Protocols, method Configure,
    the caller's [dateCreated] or else the current time, and the fresh
    normalised definition. Whether or not signing, schema check and
    constructor come through, the heap is left as normalisation left
    it. *)
Theorem create_signs_the_normalised_definition
    (heap : Heap) options d entries normalizedProtocol :
  heap !! optionDefinition options = Some (DefinitionObject d) ->
  heap !! types d = Some (TypesObject entries) ->
  wellFormedTypes entries heap ->
  normalizeProtocolUrl (protocol d) = Fulfilled normalizedProtocol ->
  let heap' :=
    (normalizedHeap entries heap
     ++ [ TypesObject entries;
          DefinitionObject {| protocol := normalizedProtocol;
                              types := length heap;
                              structure := structure d |} ])%list in
  let descriptor :=
    {| descriptorInterface := "Protocols";
       descriptorMethod := "Configure";
       descriptorDateCreated :=
         match optionDateCreated options with
         | Some dateCreated => dateCreated
         | None => getCurrentTimeInHighPrecision
         end;
       descriptorDefinition := S (length heap) |} in
  finalState (create options heap) = heap'
  /\ outcome (create options heap)
     = (authorization ← signAsAuthorization descriptor
                          (authorizationSignatureInput options) heap';
        validateJsonSchema {| messageDescriptor := descriptor;
                              messageAuthorization := authorization |} heap';;
        newProtocolsConfigure {| messageDescriptor := descriptor;
                                 messageAuthorization := authorization |}
                              heap').
Proof.
  intros Hd Ht Hwf Hproto heap' descriptor.
  unfold create, outcome, finalState.
  unfold mbind, M_bind, Completion_bind, bind, inspect.
  rewrite (normalizeDefinition_run heap _ d entries normalizedProtocol
             Hd Ht Hwf Hproto).
  fold heap'.
  replace (default getCurrentTimeInHighPrecision (optionDateCreated options))
    with (descriptorDateCreated descriptor)
    by (subst descriptor; simpl; by destruct (optionDateCreated options)).
  change {| descriptorInterface := interfaceName Protocols;
            descriptorMethod := methodName Configure;
            descriptorDateCreated := descriptorDateCreated descriptor;
            descriptorDefinition := S (length heap) |} with descriptor.
  destruct (signAsAuthorization descriptor _ heap') as [authorization|e];
    simpl; [|done].
  destruct (validateJsonSchema _ heap') as [[]|e]; simpl; [|done].
  by destruct (newProtocolsConfigure _ heap').
Qed.

(** X18. What [normalizeDefinition] returns passes
    [validateDefinitionNormalized], provided the checks accept what the
    normalisers return. *)
Theorem normalised_definition_is_accepted
    (heap : Heap) definition d entries normalizedProtocol :
  heap !! definition = Some (DefinitionObject d) ->
  heap !! types d = Some (TypesObject entries) ->
  wellFormedTypes entries heap ->
  normalizeProtocolUrl (protocol d) = Fulfilled normalizedProtocol ->
  (forall url normalized,
     normalizeProtocolUrl url = Fulfilled normalized ->
     validateProtocolUrlNormalized normalized = Fulfilled tt) ->
  (forall url normalized,
     normalizeSchemaUrl url = Fulfilled normalized ->
     validateSchemaUrlNormalized normalized = Fulfilled tt) ->
  exists result heap',
    normalizeDefinition definition heap = (Fulfilled result, heap', [])
    /\ validateDefinitionNormalized result heap'
       = (Fulfilled tt, heap', []).
Proof.
  intros Hd Ht Hwf Hproto Hpok Hsok.
  eexists _, _. split.
  { apply (normalizeDefinition_run heap definition d entries
             normalizedProtocol Hd Ht Hwf Hproto). }
  set (heap' := (normalizedHeap entries heap ++ _)%list).
  assert (heap' !! S (length heap)
          = Some (DefinitionObject {| protocol := normalizedProtocol;
                                      types := length heap;
                                      structure := structure d |})) as Hd'.
  { subst heap'. rewrite lookup_app_r; rewrite normalizedHeap_length; [|lia].
    by replace (S (length heap) - length heap) with 1 by lia. }
  assert (heap' !! length heap = Some (TypesObject entries)) as Ht'.
  { subst heap'. rewrite lookup_app_r; rewrite normalizedHeap_length; [|lia].
    by rewrite Nat.sub_diag. }
  assert (forall typeName ref,
            (typeName, ref) ∈ entries ->
            exists type,
              heap !! ref = Some (TypeObject type)
              /\ heap' !! ref = Some (normalizedObject (TypeObject type)))
    as Hobj.
  { intros typeName ref Hl. destruct Hwf as [Hwf _].
    destruct (Hwf typeName ref Hl) as (type & Hr & _).
    exists type. split; [done|]. subst heap'. apply lookup_app_l_Some.
    rewrite normalizedHeap_lookup, Hr. simpl.
    by rewrite bool_decide_eq_true_2
      by apply (entry_leads_to_its_reference _ typeName), Hl. }
  assert (typesPresent entries heap') as Hpresent.
  { intros typeName ref Hl. destruct (Hobj typeName ref Hl) as (type & _ & Hr).
    simpl in Hr. destruct (schema type); [|eauto].
    destruct (normalizeSchemaUrl _); eauto. }
  destruct (validation_outcome heap' _ _ entries
              Hd' Ht' Hpresent) as [Hframe Hiff].
  destruct (validateDefinitionNormalized_reads_only (S (length heap)) heap')
    as [r Hrun].
  rewrite Hrun in Hiff |- *. unfold outcome in Hiff. simpl in Hiff.
  f_equal. f_equal. apply Hiff. split; [by eapply Hpok|].
  intros typeName ref type' url Hl Hr' Hs.
  destruct (Hobj typeName ref Hl) as (type & Hr & Hn).
  rewrite Hn in Hr'. injection Hr' as Heq. simpl in Heq.
  destruct Hwf as [Hwf _].
  destruct (Hwf typeName ref Hl) as (type0 & Hr0 & Hnorm).
  rewrite Hr in Hr0. injection Hr0 as <-.
  destruct (schema type) as [url0|] eqn:Hs0.
  - destruct (Hnorm url0 eq_refl) as [normalized Hnu].
    rewrite Hnu in Heq. injection Heq as <-. simpl in Hs.
    injection Hs as <-. by eapply Hsok.
  - injection Heq as <-. congruence.
Qed.

(** X19. On a definition whose schemas the normaliser leaves as they are,
    in particular on one without types, [normalizeDefinition] changes
    nothing the caller holds: the heap only grows by the copy of the
    types map and the returned definition. *)
Theorem normalizeDefinition_keeps_a_normalised_argument
    (heap : Heap) definition d entries normalizedProtocol :
  heap !! definition = Some (DefinitionObject d) ->
  heap !! types d = Some (TypesObject entries) ->
  wellFormedTypes entries heap ->
  normalizeProtocolUrl (protocol d) = Fulfilled normalizedProtocol ->
  (forall typeName ref type url,
     (typeName, ref) ∈ entries ->
     heap !! ref = Some (TypeObject type) ->
     schema type = Some url ->
     normalizeSchemaUrl url = Fulfilled url) ->
  normalizeDefinition definition heap
  = (Fulfilled (S (length heap)),
     (heap ++ [ TypesObject entries;
                DefinitionObject {| protocol := normalizedProtocol;
                                    types := length heap;
                                    structure := structure d |} ])%list,
     []).
Proof.
  intros Hd Ht Hwf Hproto Hfixed.
  rewrite (normalizeDefinition_run heap definition d entries
             normalizedProtocol Hd Ht Hwf Hproto).
  by rewrite (normalizedHeap_of_normalized entries heap Hfixed).
Qed.

(** X20. When the protocol URL cannot be normalised, [normalizeDefinition]
    throws that error, but only after the loop has overwritten the
    schemas of the caller's type objects and the copy of the types map
    has been made. *)
Theorem normalizeDefinition_fails_after_writing
    (heap : Heap) definition d entries e :
  heap !! definition = Some (DefinitionObject d) ->
  heap !! types d = Some (TypesObject entries) ->
  wellFormedTypes entries heap ->
  normalizeProtocolUrl (protocol d) = Thrown e ->
  normalizeDefinition definition heap
  = (Thrown e, (normalizedHeap entries heap ++ [TypesObject entries])%list,
     []).
Proof.
  intros Hd Ht Hwf Hproto.
  assert (wellFormedTypes entries (heap ++ [TypesObject entries])) as Hwf0.
  { destruct Hwf as [Hobj Hdistinct]. split; [|done].
    intros name ref Hl. destruct (Hobj name ref Hl) as (type & Hr & Hn).
    exists type. split; [|done]. by apply lookup_app_l_Some. }
  assert (normalizedHeap entries (heap ++ [TypesObject entries])
          = (normalizedHeap entries heap ++ [TypesObject entries])%list)
    as Happ.
  { unfold normalizedHeap. rewrite imap_app. simpl. f_equal.
    by case_bool_decide. }
  pose proof (normalize_loop entries _ Hwf0) as Hloop.
  unfold normalizeDefinition.
  unfold mbind, M_bind, bind, mret, M_ret, ret in *.
  unfold readDefinition, readTypes, alloc. rewrite Hd, Ht, Hloop.
  unfold lift. rewrite Hproto. simpl. by rewrite Happ.
Qed.

End ConfigureMessageFacts.

Section ConfigureMessageExamples.
Import ProtocolsConfigure ProtocolsConfigureMessage.
#[local] Existing Instance httpUrl.
#[local] Existing Instance httpValidation.
#[local] Existing Instance plainMessages.

Lemma single_type_is_present (heap : Heap) typeName ref type :
  heap !! ref = Some (TypeObject type) ->
  typesPresent [(typeName, ref)] heap.
Proof.
  intros Hr name ref' [= -> ->]%list_elem_of_singleton. eauto.
Qed.

Lemma single_type_is_well_formed `{Url} (heap : Heap) typeName ref type :
  heap !! ref = Some (TypeObject type) ->
  (forall url, schema type = Some url ->
               exists normalized, normalizeSchemaUrl url = Fulfilled normalized) ->
  wellFormedTypes [(typeName, ref)] heap.
Proof.
  intros Hr Hnorm. split.
  - intros name ref' [= -> ->]%list_elem_of_singleton. eauto.
  - apply NoDup_singleton.
Qed.

Lemma gallery_schema_can_be_normalised url :
  Some "example.com/photo" = Some url ->
  exists normalized, Fulfilled (withScheme url) = Fulfilled normalized.
Proof. intros _. eauto. Qed.

Lemma withScheme_idempotent url :
  withScheme (withScheme url) = withScheme url.
Proof.
  assert (forall s t, String.prefix s (s ++ t) = true) as Hprefix.
  { induction s as [|a s IH]; intros t.
    - by destruct t.
    - change (String.prefix (String a s) (String a (s ++ t)) = true).
      simpl. destruct (ascii_dec a a); [apply IH|done]. }
  unfold withScheme. destruct (String.prefix "http://" url) eqn:E.
  - by rewrite E.
  - by rewrite Hprefix.
Qed.

Lemma validateDefinitionNormalized_accepts_iff_witness :
  finalState (validateDefinitionNormalized 2 galleryHeap) = galleryHeap
  /\ (outcome (validateDefinitionNormalized 2 galleryHeap) = Fulfilled tt
      <-> validateProtocolUrlNormalized "example.com/gallery" = Fulfilled tt
          /\ schemasNormalized [("photo", 0)] galleryHeap).
Proof.
  apply (@validateDefinitionNormalized_accepts_iff
           httpValidation galleryHeap 2
           {| protocol := "example.com/gallery"; types := 1;
              structure := "{}" |}
           [("photo", 0)]);
    try reflexivity.
  by eapply single_type_is_present.
Defined.

Lemma parse_accepts_iff_witness :
  finalState (parse galleryMessage normalizedGalleryHeap)
  = normalizedGalleryHeap
  /\ (outcome (parse galleryMessage normalizedGalleryHeap)
      = Fulfilled galleryMessage
      <-> validateAuthorizationIntegrity galleryMessage normalizedGalleryHeap
          = Fulfilled tt
          /\ validateProtocolUrlNormalized "http://example.com/gallery"
             = Fulfilled tt
          /\ schemasNormalized [("photo", 0)] normalizedGalleryHeap
          /\ newProtocolsConfigure galleryMessage normalizedGalleryHeap
             = Fulfilled galleryMessage).
Proof.
  apply (@parse_accepts_iff
           httpValidation _ plainMessages normalizedGalleryHeap galleryMessage
           {| protocol := "http://example.com/gallery"; types := 1;
              structure := "{}" |}
           [("photo", 0)] galleryMessage);
    try reflexivity.
  by eapply single_type_is_present.
Defined.

Lemma create_signs_the_normalised_definition_witness :
  finalState (create galleryOptions galleryHeap) !! 0
  = Some (TypeObject {| schema := Some "http://example.com/photo";
                        dataFormats := None |})
  /\ outcome (create galleryOptions galleryHeap)
     = Fulfilled
         {| messageDescriptor :=
              {| descriptorInterface := "Protocols";
                 descriptorMethod := "Configure";
                 descriptorDateCreated := "2023-06-01T00:00:00.000000Z";
                 descriptorDefinition := 4 |};
            messageAuthorization := "signed" |}.
Proof.
  destruct (@create_signs_the_normalised_definition
              httpUrl _ plainMessages galleryHeap galleryOptions
              {| protocol := "example.com/gallery"; types := 1;
                 structure := "{}" |}
              [("photo", 0)] "http://example.com/gallery")
    as [Hheap Hout]; try reflexivity.
  - eapply single_type_is_well_formed; [reflexivity|].
    apply gallery_schema_can_be_normalised.
  - rewrite Hheap, Hout. split; vm_compute; reflexivity.
Defined.

Lemma normalised_definition_is_accepted_witness :
  exists result heap',
    normalizeDefinition 2 galleryHeap = (Fulfilled result, heap', [])
    /\ validateDefinitionNormalized result heap' = (Fulfilled tt, heap', []).
Proof.
  apply (@normalised_definition_is_accepted
           httpUrl httpValidation galleryHeap 2
           {| protocol := "example.com/gallery"; types := 1;
              structure := "{}" |}
           [("photo", 0)] "http://example.com/gallery");
    try reflexivity.
  - eapply single_type_is_well_formed; [reflexivity|].
    apply gallery_schema_can_be_normalised.
  - intros url normalized [= <-]. simpl. rewrite withScheme_idempotent.
    by destruct (decide (withScheme url = withScheme url)).
  - intros url normalized [= <-]. simpl. rewrite withScheme_idempotent.
    by destruct (decide (withScheme url = withScheme url)).
Defined.

Lemma normalizeDefinition_keeps_a_normalised_argument_witness :
  normalizeDefinition 2 normalizedGalleryHeap
  = (Fulfilled 4,
     (normalizedGalleryHeap
      ++ [ TypesObject [("photo", 0)];
           DefinitionObject {| protocol := "http://example.com/gallery";
                               types := 3; structure := "{}" |} ])%list,
     []).
Proof.
  apply (@normalizeDefinition_keeps_a_normalised_argument
           httpUrl normalizedGalleryHeap 2
           {| protocol := "http://example.com/gallery"; types := 1;
              structure := "{}" |}
           [("photo", 0)] "http://example.com/gallery");
    try reflexivity.
  - eapply single_type_is_well_formed; [reflexivity|]. intros url _. eauto.
  - intros typeName ref type url [= -> ->]%list_elem_of_singleton
           [= <-] [= <-].
    reflexivity.
Defined.

Lemma normalizeDefinition_fails_after_writing_witness :
  @normalizeDefinition schemaOnlyUrl 2 galleryHeap
  = (Thrown "protocol URI not normalizable",
     (@normalizedHeap schemaOnlyUrl [("photo", 0)] galleryHeap
      ++ [TypesObject [("photo", 0)]])%list,
     []).
Proof.
  apply (@normalizeDefinition_fails_after_writing
           schemaOnlyUrl galleryHeap 2
           {| protocol := "example.com/gallery"; types := 1;
              structure := "{}" |}
           [("photo", 0)] "protocol URI not normalizable");
    try reflexivity.
  eapply single_type_is_well_formed; [reflexivity|]. intros url _.
  simpl. eauto.
Defined.

(** The heap that the failed call leaves behind: the schema of the
    caller's type is already overwritten. *)
Example failed_normalisation_has_written :
  finalState (@normalizeDefinition schemaOnlyUrl 2 galleryHeap) !! 0
  = Some (TypeObject {| schema := Some "http://example.com/photo";
                        dataFormats := None |}).
Proof. vm_compute; reflexivity. Qed.

(** The loop ends with the first schema that cannot be normalised: a
    type enumerated before it is already overwritten, a type enumerated
    after it is not. *)
Example normalisation_stops_at_the_first_failure :
  outcome (@normalizeDefinition strictUrl 3
             (twoTypesHeap [("photo", 1); ("draft", 0)]))
  = Thrown "schema URI not normalizable"
  /\ finalState (@normalizeDefinition strictUrl 3
                   (twoTypesHeap [("photo", 1); ("draft", 0)])) !! 1
     = Some (TypeObject {| schema := Some "http://example.com/photo";
                           dataFormats := None |})
  /\ outcome (@normalizeDefinition strictUrl 3
                (twoTypesHeap [("draft", 0); ("photo", 1)]))
     = Thrown "schema URI not normalizable"
  /\ finalState (@normalizeDefinition strictUrl 3
                   (twoTypesHeap [("draft", 0); ("photo", 1)])) !! 1
     = Some (TypeObject {| schema := Some "example.com/photo";
                           dataFormats := None |}).
Proof. split_and!; vm_compute; reflexivity. Qed.

End ConfigureMessageExamples.

(** ** Key derivation: chains and failures *)

Section HdKeyChains.
Import HdKey.
Context {PrivateJwk : Type} `{Secp256k1 PrivateJwk}.

Ltac unfold_derive :=
  unfold derivePrivateKey, mbind, Completion_bind, mret, Completion_ret.

(** X21. Deriving in two steps gives a key with the same root key id,
    scheme and derivation path as deriving with the two sub-paths put
    together: the path of the ancestor, the first sub-path, the second
    sub-path. *)
Theorem derivePrivateKey_in_steps_accumulates_the_path
    (ancestorKey child grandchild : DerivedPrivateJwk PrivateJwk)
    (first second : list string) :
  derivePrivateKey ancestorKey first = Fulfilled child ->
  derivePrivateKey child second = Fulfilled grandchild ->
  rootKeyId grandchild = rootKeyId ancestorKey
  /\ derivationScheme grandchild = derivationScheme ancestorKey
  /\ derivationPath grandchild
     = Some (default [] (derivationPath ancestorKey) ++ first ++ second)%list
  /\ forall direct,
       derivePrivateKey ancestorKey (first ++ second)%list = Fulfilled direct ->
       rootKeyId direct = rootKeyId grandchild
       /\ derivationScheme direct = derivationScheme grandchild
       /\ derivationPath direct = derivationPath grandchild.
Proof.
  intros H1 H2.
  destruct (derivePrivateKey_returned_key _ _ _ H1) as (Hr1 & Hs1 & Hp1).
  destruct (derivePrivateKey_returned_key _ _ _ H2) as (Hr2 & Hs2 & Hp2).
  rewrite Hp1 in Hp2. simpl in Hp2. rewrite <- (assoc_L (++)) in Hp2.
  split_and!; [congruence..|].
  intros direct Hd.
  destruct (derivePrivateKey_returned_key _ _ _ Hd) as (Hr & Hs & Hp).
  split_and!; congruence.
Qed.

(** X22. [derivePrivateKey] throws exactly the error of the first of its
    three key operations that throws, and returns when none does. *)
Theorem derivePrivateKey_throws_iff ancestorKey subDerivationPath e :
  derivePrivateKey ancestorKey subDerivationPath = Thrown e
  <-> privateJwkToBytes (derivedPrivateKey ancestorKey) = Thrown e
      \/ exists ancestorPrivateKey,
           privateJwkToBytes (derivedPrivateKey ancestorKey)
           = Fulfilled ancestorPrivateKey
           /\ (secpDerivePrivateKey ancestorPrivateKey subDerivationPath
               = Thrown e
               \/ exists derived,
                    secpDerivePrivateKey ancestorPrivateKey subDerivationPath
                    = Fulfilled derived
                    /\ privateKeyToJwk derived = Thrown e).
Proof.
  unfold_derive.
  destruct (privateJwkToBytes _) as [bytes|e1]; simpl.
  - destruct (secpDerivePrivateKey bytes _) as [derived|e2] eqn:Hderive;
      simpl.
    + destruct (privateKeyToJwk derived) as [jwk|e3] eqn:Hjwk; simpl.
      * split; [done|].
        intros [Hb|(b & Hb & [Hd|(d' & Hd & Hj)])]; simplify_eq; congruence.
      * split.
        -- intros [= ->]. right. exists bytes. split; [done|]. right. eauto.
        -- intros [Hb|(b & Hb & [Hd|(d' & Hd & Hj)])]; simplify_eq;
             congruence.
    + split.
      * intros [= ->]. right. exists bytes. split; [done|]. by left.
      * intros [Hb|(b & Hb & [Hd|(d' & Hd & Hj)])]; simplify_eq;
          congruence.
  - split.
    + intros [= ->]. by left.
    + intros [Hb|(b & Hb & _)]; simplify_eq; congruence.
Qed.

End HdKeyChains.

Section HdKeyChainExamples.
Import HdKey.
#[local] Existing Instance appendingKeys.

Lemma derivePrivateKey_in_steps_accumulates_the_path_witness :
  derivePrivateKey rootKey ["a"]
  = Fulfilled {| rootKeyId := "root"; derivationScheme := Protocols;
                 derivationPath := Some ["a"]; derivedPrivateKey := "ka" |}
  /\ derivePrivateKey
       {| rootKeyId := "root"; derivationScheme := Protocols;
          derivationPath := Some ["a"]; derivedPrivateKey := "ka" |}
       ["b"; "c"]
     = Fulfilled {| rootKeyId := "root"; derivationScheme := Protocols;
                    derivationPath := Some ["a"; "b"; "c"];
                    derivedPrivateKey := "kabc" |}
  /\ Some ["a"; "b"; "c"] = Some ([] ++ ["a"] ++ ["b"; "c"])%list.
Proof.
  split; [reflexivity|]. split; [reflexivity|].
  apply (@derivePrivateKey_in_steps_accumulates_the_path
           string appendingKeys rootKey
           {| rootKeyId := "root"; derivationScheme := Protocols;
              derivationPath := Some ["a"]; derivedPrivateKey := "ka" |}
           {| rootKeyId := "root"; derivationScheme := Protocols;
              derivationPath := Some ["a"; "b"; "c"];
              derivedPrivateKey := "kabc" |}
           ["a"] ["b"; "c"]);
    reflexivity.
Defined.

(** A key that is not on the curve cannot be the ancestor. *)
Example empty_key_is_refused :
  derivePrivateKey
    {| rootKeyId := "root"; derivationScheme := Schemas;
       derivationPath := Some ["a"]; derivedPrivateKey := "" |} ["b"]
  = Thrown "not a SECP256K1 key".
Proof. reflexivity. Qed.

End HdKeyChainExamples.

(** ** Creating a node *)

Section DwnCreateFacts.
Import DwnCreate.
Context {DidResolver MessageStore DataStore EventLog TenantGate W : Type}
        `{Components DidResolver MessageStore DataStore EventLog TenantGate W}.

Ltac unfold_create :=
  unfold create, open, callMethod, construct, withDefaults,
    mbind, M_bind, bind, updating, throw, mret, M_ret, ret,
    outcome, finalState, calls.

Ltac branch :=
  match goal with
  | |- context [match ?x with _ => _ end] => destruct x eqn:?
  | H : context [match ?x with _ => _ end] |- _ => destruct x eqn:?
  end.

(** X23. A node that [create] returns has all five collaborators: each is
    the one the caller supplied or else the default, the caller's
    configuration now holds the same five, and the message store, the
    data store and the event log have been opened, in this order. *)
Theorem create_returns_a_complete_node
    (config : option (DwnConfig DidResolver MessageStore DataStore EventLog
                                TenantGate))
    (w : W) dwn config' :
  outcome (create config w) = Fulfilled (dwn, config') ->
  let given := default (mkDwnConfig None None None None None) config in
  didResolver dwn
  = Some (default newDidResolver (configDidResolver given))
  /\ tenantGate dwn
     = Some (default newAllowAllTenantGate (configTenantGate given))
  /\ messageStore dwn
     = Some (default newMessageStoreLevel (configMessageStore given))
  /\ dataStore dwn
     = Some (default newDataStoreLevel (configDataStore given))
  /\ eventLog dwn
     = Some (default newEventLogLevel (configEventLog given))
  /\ config' = {| configDidResolver := didResolver dwn;
                  configMessageStore := messageStore dwn;
                  configDataStore := dataStore dwn;
                  configTenantGate := tenantGate dwn;
                  configEventLog := eventLog dwn |}
  /\ calls (create config w)
     = [ MessageStoreOpen
           (default newMessageStoreLevel (configMessageStore given));
         DataStoreOpen (default newDataStoreLevel (configDataStore given));
         EventLogOpen (default newEventLogLevel (configEventLog given)) ].
Proof.
  unfold_create. simpl.
  repeat (branch; simpl in *; simplify_eq);
    intros Hout; simplify_eq; done.
Qed.

(** X24. [create] throws only when one of the three stores cannot be
    opened, with the error of that store; the stores after it are then
    not opened, the ones before it stay open, and no node is returned. *)
Theorem create_stops_at_the_store_that_fails
    (config : option (DwnConfig DidResolver MessageStore DataStore EventLog
                                TenantGate))
    (w : W) e :
  outcome (create config w) = Thrown e ->
  let given := default (mkDwnConfig None None None None None) config in
  let messages := default newMessageStoreLevel (configMessageStore given) in
  let data := default newDataStoreLevel (configDataStore given) in
  let log := default newEventLogLevel (configEventLog given) in
  let final := finalState (create config w) in
  (messageStoreOpen messages w = (Thrown e, final)
   /\ calls (create config w) = [MessageStoreOpen messages])
  \/ (exists w1,
        messageStoreOpen messages w = (Fulfilled tt, w1)
        /\ dataStoreOpen data w1 = (Thrown e, final)
        /\ calls (create config w)
           = [MessageStoreOpen messages; DataStoreOpen data])
  \/ (exists w1 w2,
        messageStoreOpen messages w = (Fulfilled tt, w1)
        /\ dataStoreOpen data w1 = (Fulfilled tt, w2)
        /\ eventLogOpen log w2 = (Thrown e, final)
        /\ calls (create config w)
           = [MessageStoreOpen messages; DataStoreOpen data;
              EventLogOpen log]).
Proof.
  unfold_create. simpl.
  repeat (branch; simpl in *; simplify_eq);
    intros Hout; simplify_eq;
    repeat match goal with u : unit |- _ => destruct u end;
    first [ left; by split
          | right; left; eexists; by split_and!
          | right; right; eexists _, _; by split_and! ].
Qed.

End DwnCreateFacts.

Section DwnCreateExamples.
Import DwnCreate.
#[local] Existing Instance namedComponents.

Lemma create_returns_a_complete_node_witness :
  messageStore (construct (withDefaults (Some customConfig))) = Some "MyStore"
  /\ calls (create (Some customConfig) [])
     = [ MessageStoreOpen "MyStore"; DataStoreOpen "DataStoreLevel";
         EventLogOpen "EventLogLevel" ].
Proof.
  destruct (@create_returns_a_complete_node
              string string string string string (list string)
              namedComponents (Some customConfig) []
              (construct (withDefaults (Some customConfig)))
              (withDefaults (Some customConfig)))
    as (_ & _ & Hstore & _ & _ & _ & Hcalls); [reflexivity|].
  split; [exact Hstore|exact Hcalls].
Defined.

Lemma create_stops_at_the_store_that_fails_witness :
  outcome (create (Some offlineConfig) []) = Thrown "data store offline"
  /\ finalState (create (Some offlineConfig) []) = ["MessageStoreLevel"]
  /\ calls (create (Some offlineConfig) [])
     = [MessageStoreOpen "MessageStoreLevel"; DataStoreOpen "offline"].
Proof.
  destruct (@create_stops_at_the_store_that_fails
              string string string string string (list string)
              namedComponents (Some offlineConfig) [] "data store offline")
    as [[Hm _]|[(w1 & _ & _ & Hcalls)|(w1 & w2 & _ & Hd & _)]];
    [reflexivity|discriminate Hm| |discriminate Hd].
  split; [reflexivity|]. split; [reflexivity|exact Hcalls].
Defined.

(** Without a configuration the node is made of the five defaults. *)
Example create_without_configuration :
  create None []
  = (Fulfilled
       ({| didResolver := Some "DidResolver";
           messageStore := Some "MessageStoreLevel";
           dataStore := Some "DataStoreLevel";
           eventLog := Some "EventLogLevel";
           tenantGate := Some "AllowAllTenantGate" |},
        {| configDidResolver := Some "DidResolver";
           configMessageStore := Some "MessageStoreLevel";
           configDataStore := Some "DataStoreLevel";
           configTenantGate := Some "AllowAllTenantGate";
           configEventLog := Some "EventLogLevel" |}),
     ["MessageStoreLevel"; "DataStoreLevel"; "EventLogLevel"],
     [ MessageStoreOpen "MessageStoreLevel"; DataStoreOpen "DataStoreLevel";
       EventLogOpen "EventLogLevel" ]).
Proof. reflexivity. Qed.

End DwnCreateExamples.
